(** * supp-ts: the request dispatcher of the Supp TypeScript SDK

    A shallow embedding of [src/client.ts] (class [HttpClient]),
    [src/errors.ts] (the [SuppError] hierarchy) and the constructor of
    [src/index.ts] (class [Supp]), with the properties of the dispatcher
    stated and proved over it.

    Conventions of the embedding.
    - A JavaScript [number] that the code uses as an integer (an HTTP
      status, [maxRetries], [timeout], the attempt counter, a delay in
      milliseconds) is a [Z]; a number that it only prints (a value of a
      query, a number of a body) is a [number], given by its text.
    - A JavaScript string is a [string] (its UTF-8 bytes).
    - [undefined] is [None]; [x ?? y] is [nullish].
    - An exception is a value of [thrown]; an [async] function that may
      reject returns an [outcome].
    - The platform ([fetch], [setTimeout], [URL]) is not repository
      code: the transport is a script that answers the k-th call, the
      timer of an attempt is the delay its signal is armed with, and the
      URL parser is a section variable. *)

From Stdlib Require Import ZArith String Ascii List Bool Lia DecimalString DecimalPos DecimalZ.
From stdpp Require Import base option list functions gmap strings.

Local Open Scope string_scope.
Local Open Scope list_scope.
Local Open Scope Z_scope.

(** * The program *)

(** ** JavaScript values *)

(** The decimal rendering of an integer, as a template literal or
    [String(n)] gives it for the integers that the code handles as such
    (an HTTP status). *)
Definition Z_to_string (n : Z) : string := NilZero.string_of_int (Z.to_int n).

(** A JavaScript number that the code does not compute with: a value of
    a query, a number of a decoded body.  The only thing the dispatcher
    does with one is [String(value)] (in [buildUrl], and in the [Error]
    constructor for the message), and that text is the platform's
    ([Number::toString]: [10], [0.5], [1e+21], [NaN], [Infinity]); the
    number is given by that text, which tells numbers apart. *)
Record number : Type := mkNumber {
  Number_toString : string
}.

(** The integer [n] as a number, for [-2^53 <= n <= 2^53], where the text
    of the platform is the decimal digits. *)
Definition integer (n : Z) : number :=
  {| Number_toString := Z_to_string n |}.

(** Decoded JSON.  The dispatcher never inspects a number of a body, it
    only passes bodies through.  An object is the list of its own
    properties, keys distinct, in insertion order. *)
#[warnings="-register-all"]
Inductive json : Type :=
| JNull
| JBool (b : bool)
| JNum (x : number)
| JStr (s : string)
| JArr (items : list json)
| JObj (fields : list (string * json)).

(** Lookup of an own property in the property list of an object. *)
Fixpoint own_property (k : string) (fields : list (string * json)) : option json :=
  match fields with
  | [] => None
  | (k', v) :: rest => if String.eqb k k' then Some v else own_property k rest
  end.

(** [x ?? y]: [y] when [x] is [undefined] or [null]. *)
Definition nullish (x : option json) (y : json) : json :=
  match x with
  | None | Some JNull => y
  | Some v => v
  end.

(** The property read [v.k] for a key [k] that no prototype defines
    ([data] and [error] are such keys): it throws a [TypeError] on [null]
    ([None]), finds an own property of an object, and is [undefined] on
    every other value. *)
Definition get_field (v : json) (k : string) : option (option json) :=
  match v with
  | JNull => None
  | JObj fields => Some (own_property k fields)
  | _ => Some None
  end.

Fixpoint join (sep : string) (parts : list string) : string :=
  match parts with
  | [] => ""
  | [p] => p
  | p :: rest => p +:+ sep +:+ join sep rest
  end.

(** ECMAScript [ToString] on a decoded JSON value; [None] when it throws
    a [TypeError].  The [Error] constructor applies it to its [message]
    argument.  A JSON object has no callable property, so an own
    [toString] key leaves no way to a primitive; otherwise
    [Object.prototype.toString] answers.  An array joins its items with
    commas, [null] items as empty strings. *)
Fixpoint ToString (v : json) : option string :=
  match v with
  | JNull => Some "null"
  | JBool true => Some "true"
  | JBool false => Some "false"
  | JNum x => Some (Number_toString x)
  | JStr s => Some s
  | JArr items =>
      let fix each (l : list json) : option (list string) :=
        match l with
        | [] => Some []
        | x :: rest =>
            match (match x with JNull => Some "" | _ => ToString x end), each rest with
            | Some s, Some ss => Some (s :: ss)
            | _, _ => None
            end
        end in
      match each items with
      | Some parts => Some (join "," parts)
      | None => None
      end
  | JObj fields =>
      match own_property "toString" fields with
      | Some _ => None
      | None => Some "[object Object]"
      end
  end.

(** ** Errors ([src/errors.ts]) *)

(** A plain [Error] (also [TypeError], [SyntaxError]): it has a name and a
    message, and neither [status] nor [code]. *)
Record Error : Type := mkError { name : string; message : string }.

(** A [DOMException], as [fetch] rejects with when its signal aborts. *)
Record DOMException : Type := mkDOMException { dom_name : string; dom_message : string }.

Record SuppError : Type := mkSuppError {
  supp_name : string;
  supp_message : string;
  status : Z;
  code : string
}.

(** [new SuppError(message, status, code?)]. *)
Definition SuppError_new (message : string) (status : Z) (code : option string) : SuppError :=
  {| supp_name := "SuppError";
     supp_message := message;
     status := status;
     code := default ("HTTP_" +:+ Z_to_string status) code |}.

Definition with_name (n : string) (e : SuppError) : SuppError :=
  {| supp_name := n; supp_message := supp_message e; status := status e; code := code e |}.

(** The subclasses.  Their default messages apply to an [undefined]
    argument only; [None] is that argument. *)
Definition AuthenticationError (message : option string) : SuppError :=
  with_name "AuthenticationError"
    (SuppError_new (default "Invalid or missing API key" message) 401 (Some "AUTHENTICATION_ERROR")).

Definition InsufficientBalanceError (message : option string) : SuppError :=
  with_name "InsufficientBalanceError"
    (SuppError_new (default "Insufficient balance" message) 402 (Some "INSUFFICIENT_BALANCE")).

Definition ForbiddenError (message : option string) : SuppError :=
  with_name "ForbiddenError"
    (SuppError_new (default "Insufficient permissions" message) 403 (Some "FORBIDDEN")).

Definition NotFoundError (message : option string) : SuppError :=
  with_name "NotFoundError"
    (SuppError_new (default "Resource not found" message) 404 (Some "NOT_FOUND")).

Definition RateLimitError (message : option string) : SuppError :=
  with_name "RateLimitError"
    (SuppError_new (default "Rate limit or spend cap exceeded" message) 429 (Some "RATE_LIMITED")).

Definition ValidationError (message : string) : SuppError :=
  with_name "ValidationError" (SuppError_new message 400 (Some "VALIDATION_ERROR")).

Definition TypeError (message : string) : Error :=
  {| name := "TypeError"; message := message |}.

(** What a [throw] can carry in the dispatcher. *)
Inductive thrown : Type :=
| ThrownSupp (e : SuppError)
| ThrownDOM (d : DOMException)
| ThrownError (e : Error).

(** The result of an [async] function: resolved or rejected. *)
Inductive outcome (A : Type) : Type :=
| Return (v : A)
| Throw (e : thrown).
Arguments Return {A} v.
Arguments Throw {A} e.

(** ** Configuration and construction ([src/client.ts], [src/index.ts]) *)

Definition DEFAULT_BASE_URL : string := "https://api.supp.support".
Definition DEFAULT_TIMEOUT : Z := 30000.
Definition DEFAULT_MAX_RETRIES : Z := 2.

Record SuppOptions : Type := mkSuppOptions {
  opt_baseUrl : option string;
  opt_maxRetries : option Z;
  opt_timeout : option Z
}.

Definition no_options : SuppOptions :=
  {| opt_baseUrl := None; opt_maxRetries := None; opt_timeout := None |}.

(** The private fields of [HttpClient]. *)
Record HttpClient : Type := mkHttpClient {
  apiKey : string;
  baseUrl : string;
  maxRetries : Z;
  timeout : Z
}.

(** [s.replace(/\/$/, "")]: without the [m] flag [$] is the end of the
    input, so one final slash goes, if there is one. *)
Fixpoint strip_trailing_slash (s : string) : string :=
  match s with
  | EmptyString => EmptyString
  | String c rest =>
      match rest with
      | EmptyString => if Ascii.eqb c "/" then EmptyString else s
      | String _ _ => String c (strip_trailing_slash rest)
      end
  end.

(** [new HttpClient(apiKey, options)]. *)
Definition HttpClient_new (apiKey : string) (options : SuppOptions) : HttpClient :=
  {| apiKey := apiKey;
     baseUrl := strip_trailing_slash (default DEFAULT_BASE_URL (opt_baseUrl options));
     maxRetries := default DEFAULT_MAX_RETRIES (opt_maxRetries options);
     timeout := default DEFAULT_TIMEOUT (opt_timeout options) |}.

(** A string is falsy exactly when it is empty. *)
Definition falsy (s : string) : bool := if s is EmptyString then true else false.

(** [new Supp(apiKey, options)]: the resource wrappers only keep the
    client they are given, so the constructed object is its client. *)
Definition Supp_new (apiKey : string) (options : SuppOptions) : outcome HttpClient :=
  if falsy apiKey then
    Throw (ThrownError
      {| name := "Error";
         message := "API key is required. Get one at https://supp.support/dashboard" |})
  else
    Return (HttpClient_new apiKey
      {| opt_baseUrl := opt_baseUrl options;
         opt_maxRetries := opt_maxRetries options;
         opt_timeout := opt_timeout options |}).

(** ** Requests *)

Inductive Method : Type := GET | POST | PATCH | DELETE.

Definition Method_eqb (a b : Method) : bool :=
  match a, b with
  | GET, GET | POST, POST | PATCH, PATCH | DELETE, DELETE => true
  | _, _ => false
  end.

(** A query value: [string | number | boolean]; [undefined] is [None]. *)
Inductive scalar : Type :=
| SString (s : string)
| SNumber (x : number)
| SBoolean (b : bool).

(** [String(value)]. *)
Definition String_of (v : scalar) : string :=
  match v with
  | SString s => s
  | SNumber x => Number_toString x
  | SBoolean true => "true"
  | SBoolean false => "false"
  end.

(** [RequestOptions].  [body] is a [Record<string, unknown>]: an object,
    given by its properties.  [query] is given by [Object.entries]. *)
Record RequestOptions : Type := mkRequestOptions {
  method : Method;
  path : string;
  body : option (list (string * json));
  query : option (list (string * option scalar))
}.

(** The text [JSON.stringify(v)], kept as the value it prints. *)
Inductive BodyInit : Type := JSONText (v : json).
Definition JSON_stringify (v : json) : BodyInit := JSONText v.

(** [RequestInit].  [init_signal] is the delay after which the signal of
    the attempt aborts: [setTimeout(() => controller.abort(), delay)]. *)
Record RequestInit : Type := mkRequestInit {
  init_method : Method;
  init_headers : gmap string string;
  init_body : option BodyInit;
  init_signal : option Z
}.

(** ** URLs *)

(** A parsed URL: [url_base] is everything before the query (scheme,
    authority, path), [url_query] the query string after [?],
    [searchParams] the list of the [URLSearchParams] object, which the
    platform keeps in step with the query, [url_hash] the fragment. *)
Record URL : Type := mkURL {
  url_base : string;
  url_query : option string;
  searchParams : list (string * string);
  url_hash : option string
}.

Definition is_unreserved (c : ascii) : bool :=
  let n := N_of_ascii c in
  ((48 <=? n) && (n <=? 57) || (65 <=? n) && (n <=? 90) || (97 <=? n) && (n <=? 122)
   || (n =? 42) || (n =? 45) || (n =? 46) || (n =? 95))%N.

Definition hex_digit (n : N) : ascii :=
  ascii_of_N (if (n <? 10)%N then 48 + n else 55 + n)%N.

(** The [application/x-www-form-urlencoded] byte serializer: letters,
    digits and [*-._] stay, a space is [+], any other byte is [%HH]. *)
Definition urlencode_byte (c : ascii) : string :=
  if is_unreserved c then String c ""
  else if Ascii.eqb c " " then "+"
  else String "%" (String (hex_digit (N_of_ascii c / 16)) (String (hex_digit (N_of_ascii c mod 16)) "")).

Fixpoint urlencode (s : string) : string :=
  match s with
  | EmptyString => EmptyString
  | String c rest => urlencode_byte c +:+ urlencode rest
  end.

Definition serialize_pair (p : string * string) : string :=
  urlencode p.1 +:+ "=" +:+ urlencode p.2.

Definition serialize_params (l : list (string * string)) : string :=
  join "&" (serialize_pair <$> l).

Definition drop_key (k : string) (l : list (string * string)) : list (string * string) :=
  List.filter (fun p => negb (String.eqb k p.1)) l.

(** The list update of [URLSearchParams.set]: the first pair named [k]
    takes the value and the others go; without one the pair is appended. *)
Fixpoint set_pair (k v : string) (l : list (string * string)) : list (string * string) :=
  match l with
  | [] => [(k, v)]
  | (k', v') :: rest =>
      if String.eqb k k' then (k', v) :: drop_key k rest
      else (k', v') :: set_pair k v rest
  end.

(** [url.searchParams.set(k, v)]: update the list, then the query of the
    URL becomes the serialized list ([null] if that is empty). *)
Definition searchParams_set (url : URL) (k v : string) : URL :=
  let l := set_pair k v (searchParams url) in
  let q := serialize_params l in
  {| url_base := url_base url;
     url_query := if q is EmptyString then None else Some q;
     searchParams := l;
     url_hash := url_hash url |}.

(** [url.toString()]. *)
Definition URL_toString (url : URL) : string :=
  url_base url
  +:+ (if url_query url is Some q then "?" +:+ q else "")
  +:+ (if url_hash url is Some h then "#" +:+ h else "").

(** ** The transport and its effects *)

(** What [response.json()] settles to: the decoded body, or a rejection
    (a [SyntaxError] when the body is not JSON, an empty body included). *)
Inductive json_result : Type :=
| Decoded (v : json)
| Undecodable (e : Error).

Record Response : Type := mkResponse {
  resp_status : Z;
  resp_json : json_result
}.

(** [response.ok]. *)
Definition ok (r : Response) : bool :=
  (200 <=? resp_status r) && (resp_status r <=? 299).

(** What [await fetch(url, init)] settles to: a response, whatever its
    status; a [DOMException] (named [AbortError] when the signal aborted
    the call); any other error of the network. *)
Inductive fetch_outcome : Type :=
| Resolved (r : Response)
| RejectedDOM (d : DOMException)
| RejectedError (e : Error).

Definition AbortError : DOMException :=
  {| dom_name := "AbortError"; dom_message := "This operation was aborted" |}.

(** The observable effects of a call of [request], in order. *)
Inductive event : Type :=
| EvFetch (url : string) (init : RequestInit)
| EvSleep (ms : Z).

(** The state threaded through [request]: how many calls the transport
    has answered, and the effects so far. *)
Record World : Type := mkWorld {
  issued : nat;
  log : list event
}.

Definition initial_world : World := {| issued := 0; log := [] |}.

(** The delays of the sleeps of a log, in order. *)
Definition sleeps (l : list event) : list Z :=
  omap (fun e => if e is EvSleep ms then Some ms else None) l.

(** The calls of a log, in order. *)
Definition fetches (l : list event) : list (string * RequestInit) :=
  omap (fun e => if e is EvFetch u i then Some (u, i) else None) l.

(** ** The dispatcher ([src/client.ts]) *)

(** How one iteration of the loop ends. *)
Inductive attempt_result : Type :=
| Returned (v : json)            (* [return] from the [try] block *)
| Threw (e : thrown)             (* an exception on its way out *)
| Recorded (lastError : thrown). (* fell through with [lastError] set *)

(** [buildError(status, message)]. *)
Definition buildError (status : Z) (message : string) : SuppError :=
  if status =? 400 then ValidationError message
  else if status =? 401 then AuthenticationError (Some message)
  else if status =? 402 then InsufficientBalanceError (Some message)
  else if status =? 403 then ForbiddenError (Some message)
  else if status =? 404 then NotFoundError (Some message)
  else if status =? 429 then RateLimitError (Some message)
  else SuppError_new message status None.

(** The [try] block from the settled [fetch] on (lines 62 to 80).  The
    cast [as string] of the message is erased: a value that is not a
    string reaches the [Error] constructor, which applies [ToString]. *)
Definition try_block (settled : fetch_outcome) : attempt_result :=
  match settled with
  | RejectedDOM d => Threw (ThrownDOM d)
  | RejectedError e => Threw (ThrownError e)
  | Resolved response =>
      if ok response then
        match resp_json response with
        | Undecodable e => Threw (ThrownError e)
        | Decoded json =>
            match get_field json "data" with
            | None =>
                Threw (ThrownError (TypeError "Cannot read properties of null (reading 'data')"))
            | Some data => Returned (nullish data json)
            end
        end
      else
        let errorBody :=
          match resp_json response with
          | Decoded v => v
          | Undecodable _ => JObj []
          end in
        match get_field errorBody "error" with
        | None =>
            Threw (ThrownError (TypeError "Cannot read properties of null (reading 'error')"))
        | Some error =>
            let message :=
              nullish error
                (JStr ("Request failed with status " +:+ Z_to_string (resp_status response))) in
            match ToString message with
            | None => Threw (ThrownError (TypeError "Cannot convert object to primitive value"))
            | Some message =>
                if resp_status response <? 500 then
                  Threw (ThrownSupp (buildError (resp_status response) message))
                else
                  Recorded (ThrownSupp (SuppError_new message (resp_status response) None))
            end
        end
  end.

(** The [catch] block (lines 82 to 90). *)
Definition catch_block (error : thrown) : attempt_result :=
  match error with
  | ThrownSupp e => Threw (ThrownSupp e)
  | ThrownDOM d =>
      if String.eqb (dom_name d) "AbortError" then
        Recorded (ThrownSupp (SuppError_new "Request timed out" 408 (Some "TIMEOUT")))
      else Recorded (ThrownDOM d)
  | ThrownError e => Recorded (ThrownError e)
  end.

(** One [try]/[catch] on a settled [fetch]. *)
Definition attempt_on (settled : fetch_outcome) : attempt_result :=
  match try_block settled with
  | Threw e => catch_block e
  | r => r
  end.

(** [Math.min(1000 * 2 ** attempt, 8000)]. *)
Definition backoff (attempt : Z) : Z := Z.min (1000 * 2 ^ attempt) 8000.

(** [init.signal = controller.signal], the controller aborting after
    [this.timeout] milliseconds. *)
Definition arm (this : HttpClient) (init : RequestInit) : RequestInit :=
  {| init_method := init_method init; init_headers := init_headers init;
     init_body := init_body init; init_signal := Some (timeout this) |}.

Section Dispatcher.

(** [new URL(input, base)]: the parser of the platform; [None] when it
    throws (a [TypeError], on a base that is no URL). *)
Variable URL_new : string -> string -> option URL.

(** The transport: what the k-th call of [fetch] settles to. *)
Variable net : nat -> fetch_outcome.

Definition fetch (url : string) (init : RequestInit) (w : World) : fetch_outcome * World :=
  (net (issued w), {| issued := S (issued w); log := log w ++ [EvFetch url init] |}).

Definition sleep (ms : Z) (w : World) : World :=
  {| issued := issued w; log := log w ++ [EvSleep ms] |}.

(** [buildUrl(path, query)]. *)
Definition buildUrl (this : HttpClient) (path : string)
    (query : option (list (string * option scalar))) : outcome string :=
  match URL_new path (baseUrl this) with
  | None => Throw (ThrownError (TypeError "Invalid URL"))
  | Some url =>
      let url :=
        match query with
        | Some entries =>
            fold_left
              (fun url entry =>
                 match entry with
                 | (key, Some value) => searchParams_set url key (String_of value)
                 | (_, None) => url
                 end)
              entries url
        | None => url
        end in
      Return (URL_toString url)
  end.

(** The headers and the [init] of lines 40 to 52. *)
Definition request_init (this : HttpClient) (options : RequestOptions) : RequestInit :=
  let headers : gmap string string :=
    {[ "X-API-Key" := apiKey this; "Content-Type" := "application/json" ]} in
  let init :=
    {| init_method := method options; init_headers := headers;
       init_body := None; init_signal := None |} in
  match body options with
  | Some b =>
      if negb (Method_eqb (method options) GET) then
        {| init_method := init_method init; init_headers := init_headers init;
           init_body := Some (JSON_stringify (JObj b)); init_signal := init_signal init |}
      else init
  | None => init
  end.

(** The [for] loop of lines 56 to 97, over the values that [attempt]
    takes, and the final [throw] of line 99. *)
Fixpoint attempts (this : HttpClient) (url : string) (init : RequestInit)
    (indices : list Z) (lastError : option thrown) (w : World) : outcome json * World :=
  match indices with
  | [] =>
      (Throw (default (ThrownSupp (SuppError_new "Request failed after retries" 500 None))
                lastError), w)
  | attempt :: rest =>
      let init := arm this init in
      let '(settled, w) := fetch url init w in
      match attempt_on settled with
      | Returned v => (Return v, w)
      | Threw e => (Throw e, w)
      | Recorded e =>
          let w := if attempt <? maxRetries this then sleep (backoff attempt) w else w in
          attempts this url init rest (Some e) w
      end
  end.

(** [request(options)].  [attempt] runs from [0] while
    [attempt <= maxRetries]. *)
Definition request (this : HttpClient) (options : RequestOptions) : outcome json * World :=
  match buildUrl this (path options) (query options) with
  | Throw e => (Throw e, initial_world)
  | Return url =>
      attempts this url (request_init this options)
        (seqZ 0 (maxRetries this + 1)) None initial_world
  end.

(** The four shorthands. *)
Definition get (this : HttpClient) (path : string)
    (query : option (list (string * option scalar))) : outcome json * World :=
  request this {| method := GET; path := path; body := None; query := query |}.

Definition post (this : HttpClient) (path : string)
    (body : option (list (string * json))) : outcome json * World :=
  request this {| method := POST; path := path; body := body; query := None |}.

Definition patch (this : HttpClient) (path : string)
    (body : option (list (string * json))) : outcome json * World :=
  request this {| method := PATCH; path := path; body := body; query := None |}.

Definition delete (this : HttpClient) (path : string) : outcome json * World :=
  request this {| method := DELETE; path := path; body := None; query := None |}.

End Dispatcher.

(** ** The vocabulary of the properties *)

(** A call, then a sleep and the call again for every delay: the log of
    a run whose attempts are separated by these delays. *)
Definition alternating (call : event) (delays : list Z) : list event :=
  call :: flat_map (fun d => [EvSleep d; call]) delays.

(** The message synthesized for an error response without one. *)
Definition synthesized (status : Z) : string :=
  "Request failed with status " +:+ Z_to_string status.

(** The message of an error response: the [error] of its body as a
    string, or the synthesized message when the body does not decode or
    has no [error] (or a [null] one).  [None] for the two bodies that
    carry no message at all: JSON [null], and an [error] that has no
    string form. *)
Definition envelope_message (r : Response) : option string :=
  match resp_json r with
  | Undecodable _ => Some (synthesized (resp_status r))
  | Decoded JNull => None
  | Decoded (JObj fields) =>
      match own_property "error" fields with
      | None | Some JNull => Some (synthesized (resp_status r))
      | Some error => ToString error
      end
  | Decoded _ => Some (synthesized (resp_status r))
  end.

(** The payload of a decoded success body: its [data] when that is there
    and not [null], else the body itself. *)
Definition payload (v : json) : json :=
  match v with
  | JObj fields =>
      match own_property "data" fields with
      | None | Some JNull => v
      | Some data => data
      end
  | _ => v
  end.

(** The error recorded for an attempt that timed out. *)
Definition timeout_error : SuppError :=
  {| supp_name := "SuppError"; supp_message := "Request timed out";
     status := 408; code := "TIMEOUT" |}.

(** The status→kind table: the class of the error and its code. *)
Definition kind_of_status (status : Z) : string * string :=
  if status =? 400 then ("ValidationError", "VALIDATION_ERROR")
  else if status =? 401 then ("AuthenticationError", "AUTHENTICATION_ERROR")
  else if status =? 402 then ("InsufficientBalanceError", "INSUFFICIENT_BALANCE")
  else if status =? 403 then ("ForbiddenError", "FORBIDDEN")
  else if status =? 404 then ("NotFoundError", "NOT_FOUND")
  else if status =? 429 then ("RateLimitError", "RATE_LIMITED")
  else ("SuppError", "HTTP_" +:+ Z_to_string status).

(** An attempt is transient when the loop records its error and goes on. *)
Definition transient (settled : fetch_outcome) : Prop :=
  exists e, attempt_on settled = Recorded e.

(** The query parameters of a descriptor whose value is not absent, as
    name and rendered value, in order. *)
Definition present (entries : list (string * option scalar)) : list (string * string) :=
  omap (fun entry => (fun v => (entry.1, String_of v)) <$> entry.2) entries.


(** The loop of [buildUrl], on the parameter list alone. *)
Definition set_entries (entries : list (string * option scalar))
    (l : list (string * string)) : list (string * string) :=
  fold_left
    (fun l entry =>
       match entry with
       | (key, Some value) => set_pair key (String_of value) l
       | (_, None) => l
       end)
    entries l.

Fixpoint string_forall (P : ascii -> bool) (s : string) : bool :=
  match s with
  | EmptyString => true
  | String c rest => P c && string_forall P rest
  end.


(** The encodings as the standards word them, to compare the serializers
    with.  [upper_hex n] is the upper-case hexadecimal digit of [n], and
    [percent_encoded c] the byte [c] as [%] and its two digits. *)
Definition upper_hex (n : N) : ascii :=
  nth (N.to_nat n) (list_ascii_of_string "0123456789ABCDEF") "0"%char.

Definition percent_encoded (c : ascii) : string :=
  String "%" (String (upper_hex (N_of_ascii c / 16)) (String (upper_hex (N_of_ascii c mod 16)) "")).


(** ECMAScript, [encodeURIComponent]: a letter, a digit and one of
    [-_.!~*'()] is left as it is, any other byte is percent-encoded. *)
Definition uri_component_encoded (c : ascii) : string :=
  if existsb (Ascii.eqb c)
       (list_ascii_of_string
          "ABCDEFGHIJKLMNOPQRSTUVWXYZabcdefghijklmnopqrstuvwxyz0123456789-_.!~*'()")
  then String c ""
  else percent_encoded c.

(** The value of a hexadecimal digit, of either case. *)
Definition hex_value (c : ascii) : option N :=
  let n := N_of_ascii c in
  if ((48 <=? n) && (n <=? 57))%N then Some (n - 48)%N
  else if ((65 <=? n) && (n <=? 70))%N then Some (n - 55)%N
  else if ((97 <=? n) && (n <=? 102))%N then Some (n - 87)%N
  else None.


(** The decoding of a path segment: [%HH] is the byte [HH]. *)
Fixpoint decodeURIComponent (s : string) : string :=
  match s with
  | EmptyString => EmptyString
  | String c rest =>
      if Ascii.eqb c "%" then
        match rest with
        | String h (String l rest') =>
            match hex_value h, hex_value l with
            | Some a, Some b => String (ascii_of_N (16 * a + b)) (decodeURIComponent rest')
            | _, _ => String c (decodeURIComponent rest)
            end
        | _ => String c (decodeURIComponent rest)
        end
      else String c (decodeURIComponent rest)
  end.

(** ** Sample inputs *)

(** A parser for the plain case, for running examples: a base that is an
    origin without a final slash, and an input that is an absolute path
    with no query, no fragment and nothing to escape. *)
Definition origin_URL_new (input base : string) : option URL :=
  Some {| url_base := base +:+ input; url_query := None; searchParams := []; url_hash := None |}.



Definition script (l : list fetch_outcome) (k : nat) : fetch_outcome :=
  default (RejectedError (TypeError "fetch failed")) (l !! k).

Definition example_client : HttpClient :=
  {| apiKey := "sk_live_abc123"; baseUrl := "https://api.example.com";
     maxRetries := 2; timeout := 30000 |}.

Definition r503 : Response :=
  {| resp_status := 503; resp_json := Decoded (JObj [("error", JStr "unavailable")]) |}.

(** A success without content: [response.json()] rejects on the empty body. *)
Definition r204 : Response :=
  {| resp_status := 204;
     resp_json := Undecodable {| name := "SyntaxError"; message := "Unexpected end of JSON input" |} |}.

Definition r200 : Response :=
  {| resp_status := 200; resp_json := Decoded (JObj [("data", JObj [("id", JStr "42")])]) |}.

Definition delete_42 : RequestOptions :=
  {| method := DELETE; path := "/api/routing/42"; body := None; query := None |}.

Definition url_42 : string := "https://api.example.com/api/routing/42".

Definition r503_null : Response := {| resp_status := 503; resp_json := Decoded JNull |}.

Definition r404_null : Response := {| resp_status := 404; resp_json := Decoded JNull |}.

Definition r400_null : Response := {| resp_status := 400; resp_json := Decoded JNull |}.


Definition r400 : Response :=
  {| resp_status := 400; resp_json := Decoded (JObj [("error", JStr "bad intent")]) |}.

(** What the loop makes of the attempt that ends it: the value returned,
    or the error thrown (at once, or as [lastError] after the loop). *)
Definition outcome_of (r : attempt_result) : outcome json :=
  match r with
  | Returned v => Return v
  | Threw e => Throw e
  | Recorded e => Throw e
  end.

(** The error of line 99 when no attempt recorded one. *)
Definition fallback_error : SuppError :=
  {| supp_name := "SuppError"; supp_message := "Request failed after retries";
     status := 500; code := "HTTP_500" |}.

Definition r304 : Response :=
  {| resp_status := 304;
     resp_json := Undecodable {| name := "SyntaxError"; message := "Unexpected end of JSON input" |} |}.

(** ** The resources ([src/resources/*.ts], [src/index.ts]) *)

(** Sequencing of [await] and of statements that may throw. *)
#[export] Instance outcome_ret : MRet outcome := fun _ v => Return v.

#[export] Instance outcome_bind : MBind outcome := fun _ _ f x =>
  match x with
  | Return v => f v
  | Throw e => Throw e
  end.

(** A JavaScript value read off a decoded body: [undefined] or JSON. *)
Definition value : Type := option json.

(** [x ?? y] on two values that may be [undefined]. *)
Definition coalesce (x y : value) : value :=
  match x with
  | None | Some JNull => y
  | Some _ => x
  end.

(** The property read [raw.k] as a statement: a [TypeError] on [null]. *)
Definition field (raw : json) (k : string) : outcome value :=
  match get_field raw k with
  | Some v => Return v
  | None =>
      Throw (ThrownError (TypeError ("Cannot read properties of null (reading '" +:+ k +:+ "')")))
  end.

(** [v.map(f)]: on an array, [f] on every item in order, up to the first
    that throws; no other decoded value has a callable [map]. *)
Definition js_map {B} (f : json -> outcome B) (v : json) : outcome (list B) :=
  match v with
  | JArr items =>
      (fix each (l : list json) : outcome (list B) :=
         match l with
         | [] => Return []
         | x :: rest =>
             match f x with
             | Throw e => Throw e
             | Return y =>
                 match each rest with
                 | Throw e => Throw e
                 | Return ys => Return (y :: ys)
                 end
             end
         end) items
  | JNull => Throw (ThrownError (TypeError "Cannot read properties of null (reading 'map')"))
  | _ => Throw (ThrownError (TypeError "map is not a function"))
  end.

(** [encodeURIComponent]: letters, digits and [-_.!~*'()] stay, any other
    byte of the UTF-8 text is [%HH].  (It throws on a lone surrogate only,
    and a string with one has no UTF-8 text.) *)
Definition is_uri_unreserved (c : ascii) : bool :=
  let n := N_of_ascii c in
  ((48 <=? n) && (n <=? 57) || (65 <=? n) && (n <=? 90) || (97 <=? n) && (n <=? 122)
   || (n =? 45) || (n =? 95) || (n =? 46) || (n =? 33) || (n =? 126) || (n =? 42)
   || (n =? 39) || (n =? 40) || (n =? 41))%N.

Fixpoint encodeURIComponent (s : string) : string :=
  match s with
  | EmptyString => EmptyString
  | String c rest =>
      (if is_uri_unreserved c then String c ""
       else String "%" (String (hex_digit (N_of_ascii c / 16))
                          (String (hex_digit (N_of_ascii c mod 16)) "")))
      +:+ encodeURIComponent rest
  end.

(** *** Classification ([src/resources/classify.ts], [src/index.ts]) *)

Record ClassifyParams : Type := mkClassifyParams {
  cp_message : string;
  includePriority : option bool;
  isBatch : option bool
}.

Record ClassifyResult : Type := mkClassifyResult {
  cr_intent : value;
  cr_confidence : value;
  allIntents : list (value * value);
  cr_priority : value;
  cr_actionType : value;
  suggestedResponse : json;
  cr_cost : value
}.

(** The result that [run] makes of the payload. *)
Definition toClassifyResult (raw : json) : outcome ClassifyResult :=
  intent ← field raw "intent";
  confidence ← field raw "confidence";
  all_intents ← field raw "all_intents";
  allIntents ← js_map (fun i => a ← field i "intent"; b ← field i "confidence"; mret (a, b))
                  (nullish all_intents (JArr []));
  priority ← field raw "priority";
  action_type ← field raw "action_type";
  suggested_response ← field raw "suggested_response";
  cost ← field raw "cost";
  mret {| cr_intent := intent; cr_confidence := confidence; allIntents := allIntents;
          cr_priority := priority; cr_actionType := action_type;
          suggestedResponse := nullish suggested_response JNull; cr_cost := cost |}.

(** *** Conversations ([src/resources/conversations.ts]) *)

Record Conversation : Type := mkConversation {
  conv_id : value;
  subject : json;
  conv_intent : json;
  conv_status : value;
  conv_priority : value;
  customerEmail : json;
  conv_createdAt : value;
  conv_updatedAt : value
}.

(** [toConversation(raw)]. *)
Definition toConversation (raw : json) : outcome Conversation :=
  id ← field raw "id";
  subject ← field raw "subject";
  intent ← field raw "intent";
  status ← field raw "status";
  priority ← field raw "priority";
  customer_email ← field raw "customer_email";
  created_at ← field raw "created_at";
  updated_at ← field raw "updated_at";
  mret {| conv_id := id; subject := nullish subject JNull;
          conv_intent := nullish intent JNull; conv_status := status;
          conv_priority := priority; customerEmail := nullish customer_email JNull;
          conv_createdAt := created_at; conv_updatedAt := updated_at |}.

Record ConversationListParams : Type := mkConversationListParams {
  clp_status : option string;
  clp_priority : option string;
  clp_page : option number;
  clp_limit : option number
}.

(** The query object of [Conversations.list]: [params?.status] and the
    like, [undefined] without [params]. *)
Definition conversations_query (params : option ConversationListParams)
    : list (string * option scalar) :=
  [("status", SString <$> (params ≫= clp_status));
   ("priority", SString <$> (params ≫= clp_priority));
   ("page", SNumber <$> (params ≫= clp_page));
   ("limit", SNumber <$> (params ≫= clp_limit))].

(** *** Approvals ([src/resources/approvals.ts]) *)

Record Approval : Type := mkApproval {
  app_id : value;
  ticketId : value;
  app_intent : value;
  actionPreview : value;
  app_createdAt : value
}.

(** [toApproval(raw)]. *)
Definition toApproval (raw : json) : outcome Approval :=
  id ← field raw "id";
  ticket_id ← field raw "ticket_id";
  intent ← field raw "intent";
  action_preview ← field raw "action_preview";
  created_at ← field raw "created_at";
  mret {| app_id := id; ticketId := ticket_id; app_intent := intent;
          actionPreview := action_preview; app_createdAt := created_at |}.

(** *** Billing ([src/resources/billing.ts]) *)

Record Charge : Type := mkCharge {
  charge_amount : value;
  charge_description : value;
  charge_createdAt : value
}.

Record Balance : Type := mkBalance {
  balance : value;
  currency : json;
  recentCharges : list Charge
}.

(** The result that [balance] makes of the payload. *)
Definition toBalance (raw : json) : outcome Balance :=
  amount ← field raw "amount";
  legacy ← field raw "balance";
  currency ← field raw "currency";
  transactions ← field raw "transactions";
  recent_charges ← field raw "recent_charges";
  charges ← js_map
              (fun c =>
                 a ← field c "amount";
                 d ← field c "description";
                 t ← field c "created_at";
                 mret {| charge_amount := a; charge_description := d; charge_createdAt := t |})
              (nullish (coalesce transactions recent_charges) (JArr []));
  mret {| balance := coalesce amount legacy;
          currency := nullish currency (JStr "USD");
          recentCharges := charges |}.

Section Resources.

Variable URL_new : string -> string -> option URL.
Variable net : nat -> fetch_outcome.

(** [Classify.run(message)]: [message] is a string or a params object. *)
Definition Classify_run (client : HttpClient) (message : string + ClassifyParams)
    : outcome ClassifyResult * World :=
  let params :=
    match message with
    | inl message => {| cp_message := message; includePriority := None; isBatch := None |}
    | inr params => params
    end in
  let '(raw, w) :=
    post URL_new net client "/api/ai/classify"
      (Some [("message", JStr (cp_message params));
             ("include_priority", JBool (default false (includePriority params)));
             ("is_batch", JBool (default false (isBatch params)))]) in
  (raw ≫= toClassifyResult, w).

(** [Classify.withPriority(message)]. *)
Definition Classify_withPriority (client : HttpClient) (message : string)
    : outcome ClassifyResult * World :=
  Classify_run client
    (inr {| cp_message := message; includePriority := Some true; isBatch := None |}).

(** [Supp.classify(message)] and [Supp.classifyWithPriority(message)]:
    the [Supp] object is its client. *)
Definition Supp_classify (supp : HttpClient) (message : string + ClassifyParams)
    : outcome ClassifyResult * World :=
  Classify_run supp message.

Definition Supp_classifyWithPriority (supp : HttpClient) (message : string)
    : outcome ClassifyResult * World :=
  Classify_withPriority supp message.

(** [Conversations.list(params)]. *)
Definition Conversations_list (client : HttpClient) (params : option ConversationListParams)
    : outcome (list Conversation) * World :=
  let '(raw, w) :=
    get URL_new net client "/api/conversations" (Some (conversations_query params)) in
  (raw ≫= js_map toConversation, w).

(** [Approvals.list()]. *)
Definition Approvals_list (client : HttpClient) : outcome (list Approval) * World :=
  let '(raw, w) := get URL_new net client "/api/approvals" None in
  (raw ≫= (fun raw =>
     pending ← field raw "pending";
     js_map toApproval (nullish pending (JArr []))), w).

(** [Approvals.approve(approvalId)]: a [post] without a body. *)
Definition Approvals_approve (client : HttpClient) (approvalId : string)
    : outcome unit * World :=
  let '(raw, w) :=
    post URL_new net client
      ("/api/approvals/" +:+ encodeURIComponent approvalId +:+ "/approve") None in
  (raw ≫= (fun _ => mret tt), w).

(** [Approvals.reject(approvalId, reason)]. *)
Definition Approvals_reject (client : HttpClient) (approvalId : string)
    (reason : option string) : outcome unit * World :=
  let '(raw, w) :=
    post URL_new net client
      ("/api/approvals/" +:+ encodeURIComponent approvalId +:+ "/reject")
      (Some [("reason", JStr (default "" reason))]) in
  (raw ≫= (fun _ => mret tt), w).

(** [Routing.delete(id)]. *)
Definition Routing_delete (client : HttpClient) (id : string) : outcome unit * World :=
  let '(raw, w) :=
    delete URL_new net client ("/api/routing/" +:+ encodeURIComponent id) in
  (raw ≫= (fun _ => mret tt), w).

(** [Integrations.disconnect(integrationId)]: the id goes into the query
    of the path. *)
Definition Integrations_disconnect (client : HttpClient) (integrationId : string)
    : outcome unit * World :=
  let '(raw, w) :=
    delete URL_new net client ("/api/integrations?id=" +:+ encodeURIComponent integrationId) in
  (raw ≫= (fun _ => mret tt), w).

(** [Billing.balance()]. *)
Definition Billing_balance (client : HttpClient) : outcome Balance * World :=
  let '(raw, w) := get URL_new net client "/api/balance" None in
  (raw ≫= toBalance, w).

End Resources.

(** The value of [raw.k] on a decoded value that is not [null]. *)
Definition property (raw : json) (k : string) : value :=
  match raw with
  | JObj fields => own_property k fields
  | _ => None
  end.

(** The conversation that a decoded item stands for. *)
Definition conversation_of (raw : json) : Conversation :=
  {| conv_id := property raw "id";
     subject := nullish (property raw "subject") JNull;
     conv_intent := nullish (property raw "intent") JNull;
     conv_status := property raw "status";
     conv_priority := property raw "priority";
     customerEmail := nullish (property raw "customer_email") JNull;
     conv_createdAt := property raw "created_at";
     conv_updatedAt := property raw "updated_at" |}.

Definition is_null (v : json) : bool := if v is JNull then true else false.

(** The characters that delimit the parts of a URL and of a query. *)
Definition is_separator (c : ascii) : bool :=
  existsb (Ascii.eqb c) ["/"; "?"; "#"; "&"; "="; "+"; " "; ":"; "@"]%char.

(** * The properties *)

(** ** The shape of a run *)

(** The values that [attempt] takes in the loop: from [0] while
    [attempt <= maxRetries]. *)
Lemma loop_indices (this : HttpClient) (attempt : Z) :
  attempt ∈ seqZ 0 (maxRetries this + 1) <-> 0 <= attempt <= maxRetries this.
Proof. rewrite elem_of_seqZ. lia. Qed.

Lemma alternating_snoc (call : event) (delays : list Z) :
  flat_map (fun d => [call; EvSleep d]) delays ++ [call] = alternating call delays.
Proof.
  unfold alternating. induction delays as [|d ds IH]; [reflexivity|].
  simpl. rewrite IH. reflexivity.
Qed.

Lemma arm_arm (this : HttpClient) (init : RequestInit) :
  arm this (arm this init) = arm this init.
Proof. reflexivity. Qed.

Section Runs.

Variable URL_new : string -> string -> option URL.
Variable net : nat -> fetch_outcome.

(** The arming of [init] is the same at every iteration. *)
Lemma attempts_arm this url init indices last w :
  attempts net this url (arm this init) indices last w = attempts net this url init indices last w.
Proof. destruct indices; reflexivity. Qed.

(** [k] attempts that each record an error and sleep. *)
Lemma attempts_recorded this url init (k : nat) :
  forall (a : Z) rest last w,
    (forall i, (i < k)%nat -> exists e, attempt_on (net (issued w + i)) = Recorded e) ->
    a + Z.of_nat k <= maxRetries this ->
    exists last',
      attempts net this url init (seqZ a (Z.of_nat k) ++ rest) last w =
      attempts net this url init rest last'
        {| issued := issued w + k;
           log := log w ++ flat_map (fun d => [EvFetch url (arm this init); EvSleep d])
                             (backoff <$> seqZ a (Z.of_nat k)) |}.
Proof.
  induction k as [|k IH]; intros a rest last w Hrec Hle.
  - exists last. simpl. rewrite Nat.add_0_r, app_nil_r. by destruct w.
  - rewrite seqZ_cons by lia. simpl.
    destruct (Hrec 0%nat ltac:(lia)) as [e He]. rewrite Nat.add_0_r in He. rewrite He.
    destruct (Z.ltb_spec a (maxRetries this)); [|lia].
    replace (Z.pred (Z.of_nat (S k))) with (Z.of_nat k) by lia.
    edestruct (IH (Z.succ a) rest (Some e) (sleep (backoff a)
                 {| issued := S (issued w);
                    log := log w ++ [EvFetch url (arm this init)] |})) as [last' Heq].
    + intros i Hi. simpl. destruct (Hrec (S i) ltac:(lia)) as [e' He'].
      exists e'. rewrite <- He'. f_equal. f_equal. lia.
    + lia.
    + exists last'. rewrite attempts_arm, Heq. simpl.
      f_equal. f_equal; [lia|].
      rewrite <- !app_assoc. reflexivity.
Qed.

(** The run of [request] when the attempts before the [k]-th record an
    error: [k] sleeps, [k + 1] calls, and the [k]-th attempt decides. *)
Lemma request_run this options url (k : nat) :
  buildUrl URL_new this (path options) (query options) = Return url ->
  Z.of_nat k <= maxRetries this ->
  (forall i, (i < k)%nat -> exists e, attempt_on (net i) = Recorded e) ->
  let w := {| issued := S k;
              log := alternating (EvFetch url (arm this (request_init this options)))
                       (backoff <$> seqZ 0 (Z.of_nat k)) |} in
  match attempt_on (net k) with
  | Returned v => request URL_new net this options = (Return v, w)
  | Threw e => request URL_new net this options = (Throw e, w)
  | Recorded e => Z.of_nat k = maxRetries this -> request URL_new net this options = (Throw e, w)
  end.
Proof.
  intros Hurl Hk Hrec w. unfold request. rewrite Hurl.
  replace (maxRetries this + 1) with (Z.of_nat k + (maxRetries this + 1 - Z.of_nat k)) by lia.
  rewrite seqZ_app by lia.
  destruct (attempts_recorded this url (request_init this options) k 0
              (seqZ (0 + Z.of_nat k) (maxRetries this + 1 - Z.of_nat k)) None initial_world)
    as [last' Heq]; [exact Hrec|lia|].
  rewrite Heq. clear Heq.
  rewrite seqZ_cons by lia. subst w. simpl.
  rewrite <- (alternating_snoc (EvFetch url (arm this (request_init this options)))).
  destruct (attempt_on (net k)) as [v|e|e]; try reflexivity.
  intros Hn.
  destruct (Z.ltb_spec (0 + Z.of_nat k) (maxRetries this)); [lia|].
  rewrite seqZ_nil by lia. reflexivity.
Qed.

End Runs.

(** ** One attempt, by the kind of its outcome *)

Lemma attempt_on_success r v :
  200 <= resp_status r <= 299 -> resp_json r = Decoded v -> v <> JNull ->
  attempt_on (Resolved r) = Returned (payload v).
Proof.
  intros Hs Hj Hv. unfold attempt_on, try_block, ok.
  destruct (Z.leb_spec 200 (resp_status r)); [|lia].
  destruct (Z.leb_spec (resp_status r) 299); [|lia].
  simpl. rewrite Hj.
  destruct v; try reflexivity; congruence.
Qed.

Lemma ok_false r : resp_status r < 200 \/ 299 < resp_status r -> ok r = false.
Proof.
  intros H. unfold ok.
  destruct (Z.leb_spec 200 (resp_status r)), (Z.leb_spec (resp_status r) 299);
    simpl; try reflexivity; lia.
Qed.

(** The message that the [try] block derives from an error body inside
    the envelope. *)
Lemma try_block_message r m :
  envelope_message r = Some m ->
  exists error,
    get_field (match resp_json r with Decoded v => v | Undecodable _ => JObj [] end) "error"
      = Some error /\
    ToString (nullish error (JStr (synthesized (resp_status r)))) = Some m.
Proof.
  unfold envelope_message, synthesized.
  destruct (resp_json r) as [[| | | | |fields]|e]; simpl;
    try (intros [= <-]; eexists; split; reflexivity); try discriminate.
  intros Hm. eexists. split; [reflexivity|].
  destruct (own_property "error" fields) as [[]|]; simpl in *; exact Hm.
Qed.

Lemma attempt_on_client_error r m :
  resp_status r < 200 \/ 299 < resp_status r -> resp_status r < 500 ->
  envelope_message r = Some m ->
  attempt_on (Resolved r) = Threw (ThrownSupp (buildError (resp_status r) m)).
Proof.
  intros Hs H5 Hm. unfold attempt_on, try_block. rewrite ok_false by exact Hs.
  destruct (try_block_message r m Hm) as (error & -> & Hts).
  unfold synthesized in Hts. rewrite Hts.
  destruct (Z.ltb_spec (resp_status r) 500); [reflexivity|lia].
Qed.

Lemma attempt_on_server_error r m :
  500 <= resp_status r -> envelope_message r = Some m ->
  attempt_on (Resolved r) = Recorded (ThrownSupp (SuppError_new m (resp_status r) None)).
Proof.
  intros H5 Hm. unfold attempt_on, try_block. rewrite ok_false by lia.
  destruct (try_block_message r m Hm) as (error & -> & Hts).
  unfold synthesized in Hts. rewrite Hts.
  destruct (Z.ltb_spec (resp_status r) 500); [lia|reflexivity].
Qed.

Lemma attempt_on_abort d :
  dom_name d = "AbortError" ->
  attempt_on (RejectedDOM d) = Recorded (ThrownSupp timeout_error).
Proof. intros H. unfold attempt_on. simpl. rewrite H. reflexivity. Qed.

Lemma attempt_on_network_error e :
  attempt_on (RejectedError e) = Recorded (ThrownError e).
Proof. reflexivity. Qed.

Lemma attempt_on_undecodable_success r e :
  200 <= resp_status r <= 299 -> resp_json r = Undecodable e ->
  attempt_on (Resolved r) = Recorded (ThrownError e).
Proof.
  intros Hs Hj. unfold attempt_on, try_block, ok.
  destruct (Z.leb_spec 200 (resp_status r)); [|lia].
  destruct (Z.leb_spec (resp_status r) 299); [|lia].
  simpl. rewrite Hj. reflexivity.
Qed.

(** ** The log of a run *)

Lemma sleeps_alternating url init delays :
  sleeps (alternating (EvFetch url init) delays) = delays.
Proof.
  unfold alternating, sleeps. simpl.
  induction delays as [|d ds IH]; [reflexivity|]. simpl. by rewrite IH.
Qed.

Lemma fetches_alternating url init delays :
  fetches (alternating (EvFetch url init) delays) = replicate (S (length delays)) (url, init).
Proof.
  unfold alternating, fetches. simpl. f_equal.
  induction delays as [|d ds IH]; [reflexivity|]. simpl. by rewrite IH.
Qed.

(** The delays: 1000, 2000, 4000, then 8000 for good. *)
Lemma backoff_values :
  backoff 0 = 1000 /\ backoff 1 = 2000 /\ backoff 2 = 4000 /\
  forall attempt, 3 <= attempt -> backoff attempt = 8000.
Proof.
  repeat split; try reflexivity.
  intros a Ha. unfold backoff.
  assert (2 ^ 3 <= 2 ^ a) by (apply Z.pow_le_mono_r; lia).
  change (2 ^ 3) with 8 in *. lia.
Qed.

(** ** Retries on server errors (C1) *)

(** X1.  The retry schedule on bodies that carry a message.  With
    [maxRetries = n] and answers of status in [500,599), [request] makes
    exactly [n + 1] calls, sleeps [backoff 0], [backoff 1], ... between
    consecutive calls, and throws the [SuppError] built from the last
    answer.  An attempt that is answered with a 2xx whose body decodes
    to a value other than [null], or with a 4xx, ends the run at once:
    no sleep and no call follows it. *)
Lemma retry_schedule_on_server_errors
    URL_new net this options url (n k : nat) :
  buildUrl URL_new this (path options) (query options) = Return url ->
  maxRetries this = Z.of_nat n ->
  (k <= n)%nat ->
  (forall i, (i < k)%nat ->
     exists r m, net i = Resolved r /\ 500 <= resp_status r < 599 /\
                 envelope_message r = Some m) ->
  let call := (url, arm this (request_init this options)) in
  let w := {| issued := S k;
              log := alternating (EvFetch call.1 call.2) (backoff <$> seqZ 0 (Z.of_nat k)) |} in
  fetches (log w) = replicate (S k) call /\
  sleeps (log w) = backoff <$> seqZ 0 (Z.of_nat k) /\
  (forall r m,
     net k = Resolved r -> 500 <= resp_status r < 599 -> envelope_message r = Some m ->
     k = n ->
     request URL_new net this options =
       (Throw (ThrownSupp {| supp_name := "SuppError"; supp_message := m;
                             status := resp_status r;
                             code := "HTTP_" +:+ Z_to_string (resp_status r) |}), w)) /\
  (forall r v,
     net k = Resolved r -> 200 <= resp_status r <= 299 ->
     resp_json r = Decoded v -> v <> JNull ->
     request URL_new net this options = (Return (payload v), w)) /\
  (forall r m,
     net k = Resolved r -> 400 <= resp_status r < 500 -> envelope_message r = Some m ->
     request URL_new net this options =
       (Throw (ThrownSupp (buildError (resp_status r) m)), w)).
Proof.
  intros Hurl Hn Hk Hpre call w.
  assert (Hrec : forall i, (i < k)%nat -> exists e, attempt_on (net i) = Recorded e).
  { intros i Hi. destruct (Hpre i Hi) as (r & m & -> & Hs & Hm).
    eexists. apply attempt_on_server_error; [lia|exact Hm]. }
  pose proof (request_run URL_new net this options url k Hurl ltac:(lia) Hrec) as Hrun.
  cbn zeta in Hrun.
  split; [|split; [|split; [|split]]].
  - subst w call. cbn [log fst snd]. rewrite fetches_alternating, length_fmap, length_seqZ.
    do 2 f_equal. lia.
  - subst w. cbn [log]. apply sleeps_alternating.
  - intros r m Hr Hs Hm ->. rewrite Hr in Hrun.
    rewrite (attempt_on_server_error r m) in Hrun by (lia || exact Hm).
    apply Hrun. lia.
  - intros r v Hr Hs Hj Hv. rewrite Hr in Hrun.
    rewrite (attempt_on_success r v Hs Hj Hv) in Hrun. exact Hrun.
  - intros r m Hr Hs Hm. rewrite Hr in Hrun.
    rewrite (attempt_on_client_error r m) in Hrun by (lia || exact Hm).
    exact Hrun.
Qed.

(** Three 503 responses with [maxRetries = 2]: three calls, sleeps of
    1000 and 2000 ms, and the error of the third response. *)
Example three_503_responses :
  request origin_URL_new (script [Resolved r503; Resolved r503; Resolved r503])
    example_client delete_42 =
  (Throw (ThrownSupp {| supp_name := "SuppError"; supp_message := "unavailable";
                        status := 503; code := "HTTP_503" |}),
   {| issued := 3;
      log := [EvFetch url_42 (arm example_client (request_init example_client delete_42));
              EvSleep 1000;
              EvFetch url_42 (arm example_client (request_init example_client delete_42));
              EvSleep 2000;
              EvFetch url_42 (arm example_client (request_init example_client delete_42))] |}).
Proof.
  refine (proj1 (proj2 (proj2
    (retry_schedule_on_server_errors origin_URL_new
       (script [Resolved r503; Resolved r503; Resolved r503])
       example_client delete_42 url_42 2 2 eq_refl eq_refl (le_n 2) _)))
    r503 "unavailable" eq_refl _ eq_refl eq_refl).
  - intros [|[|i]] Hi; [exists r503, "unavailable"; repeat split; vm_compute; congruence ..|lia].
  - split; vm_compute; congruence.
Defined.

(** C1, at the failing input.  Every call is answered with status 204
    and no content, which does not decode, and [maxRetries = 2]: the 2xx
    answers do not end the loop.  There are three calls with sleeps of
    1000 and 2000 ms, and the [SyntaxError] of the decoder is thrown. *)
Theorem undecodable_success_is_retried :
  request origin_URL_new (script [Resolved r204; Resolved r204; Resolved r204])
    example_client delete_42 =
  (Throw (ThrownError {| name := "SyntaxError"; message := "Unexpected end of JSON input" |}),
   {| issued := 3;
      log := alternating (EvFetch url_42 (arm example_client (request_init example_client delete_42)))
               [1000; 2000] |}).
Proof. vm_compute. reflexivity. Qed.

(** The same loop on answers of status 503 with the body [null]: the
    three calls and the two sleeps of the schedule, and the [TypeError]
    of reading [error] of [null] in place of the [SuppError] of the last
    answer. *)
Example server_error_with_null_body :
  request origin_URL_new
    (script [Resolved r503_null; Resolved r503_null; Resolved r503_null])
    example_client delete_42 =
  (Throw (ThrownError (TypeError "Cannot read properties of null (reading 'error')")),
   {| issued := 3;
      log := alternating (EvFetch url_42 (arm example_client (request_init example_client delete_42)))
               [1000; 2000] |}).
Proof. vm_compute. reflexivity. Qed.

(** ** Client errors (C2, C9) *)

Lemma buildError_table status m :
  400 <= status < 500 ->
  buildError status m =
    {| supp_name := (kind_of_status status).1; supp_message := m;
       status := status; code := (kind_of_status status).2 |}.
Proof.
  intros Hs. unfold buildError, kind_of_status.
  repeat match goal with
         | |- context [?a =? ?b] => destruct (Z.eqb_spec a b) as [->|]; [reflexivity|]
         end.
  reflexivity.
Qed.

(** A 4xx answer inside the envelope ends the run at the first call. *)
Lemma client_error_not_retried URL_new net this options url r m :
  buildUrl URL_new this (path options) (query options) = Return url ->
  0 <= maxRetries this ->
  net 0%nat = Resolved r -> 400 <= resp_status r < 500 -> envelope_message r = Some m ->
  request URL_new net this options =
    (Throw (ThrownSupp (buildError (resp_status r) m)),
     {| issued := 1; log := [EvFetch url (arm this (request_init this options))] |}).
Proof.
  intros Hurl Hn Hr Hs Hm.
  pose proof (request_run URL_new net this options url 0 Hurl ltac:(lia)
                ltac:(intros i Hi; lia)) as Hrun.
  cbn zeta in Hrun. rewrite Hr in Hrun.
  rewrite (attempt_on_client_error r m) in Hrun by (lia || exact Hm).
  exact Hrun.
Qed.

(** C2, at the failing input.  Every answer has status 404 and the body
    [null]; with [maxRetries = 2] the 4xx is retried: three calls, sleeps
    of 1000 and 2000 ms, and a [TypeError] in place of the [NotFoundError]. *)
Theorem client_error_with_null_body_is_retried :
  request origin_URL_new
    (script [Resolved r404_null; Resolved r404_null; Resolved r404_null])
    example_client delete_42 =
  (Throw (ThrownError (TypeError "Cannot read properties of null (reading 'error')")),
   {| issued := 3;
      log := alternating (EvFetch url_42 (arm example_client (request_init example_client delete_42)))
               [1000; 2000] |}).
Proof. vm_compute. reflexivity. Qed.

(** C9, at the failing input.  Every answer has status 400 and the body
    [null], which has no [error] field; with [maxRetries = 2] the code
    makes three calls, sleeps 1000 and 2000 ms between them, and throws
    the [TypeError] of reading [.error] of [null], where the table gives
    a [ValidationError] with code [VALIDATION_ERROR], status 400 and the
    synthesized message after one call. *)
Theorem validation_error_with_null_body_is_lost :
  request origin_URL_new
    (script [Resolved r400_null; Resolved r400_null; Resolved r400_null])
    example_client delete_42 =
  (Throw (ThrownError (TypeError "Cannot read properties of null (reading 'error')")),
   {| issued := 3;
      log := alternating (EvFetch url_42 (arm example_client (request_init example_client delete_42)))
               [1000; 2000] |})
  /\ buildError (resp_status r400_null) (synthesized (resp_status r400_null)) =
       {| supp_name := "ValidationError"; supp_message := "Request failed with status 400";
          status := 400; code := "VALIDATION_ERROR" |}.
Proof. split; vm_compute; reflexivity. Qed.

(** X21.  A 4xx answer whose body carries a message or none costs one
    call and throws at once the error that the table gives for its
    status, with the [error] string of the body for message, or the
    synthesized message when the body is an object without an [error]
    field or does not decode. *)
Theorem client_error_mapping URL_new net this options url r m :
  buildUrl URL_new this (path options) (query options) = Return url ->
  0 <= maxRetries this ->
  net 0%nat = Resolved r -> 400 <= resp_status r < 500 -> envelope_message r = Some m ->
  request URL_new net this options =
    (Throw (ThrownSupp {| supp_name := (kind_of_status (resp_status r)).1;
                          supp_message := m;
                          status := resp_status r;
                          code := (kind_of_status (resp_status r)).2 |}),
     {| issued := 1; log := [EvFetch url (arm this (request_init this options))] |})
  /\ (forall fields s, resp_json r = Decoded (JObj fields) ->
        own_property "error" fields = Some (JStr s) -> m = s)
  /\ (forall fields, resp_json r = Decoded (JObj fields) ->
        own_property "error" fields = None ->
        m = "Request failed with status " +:+ Z_to_string (resp_status r))
  /\ (forall e, resp_json r = Undecodable e ->
        m = "Request failed with status " +:+ Z_to_string (resp_status r)).
Proof.
  intros Hurl Hn Hr Hs Hm. split.
  - rewrite <- buildError_table by exact Hs.
    eapply client_error_not_retried; eassumption.
  - unfold envelope_message, synthesized in Hm.
    repeat split.
    + intros fields s Hj Hf. rewrite Hj, Hf in Hm. simpl in Hm. congruence.
    + intros fields Hj Hf. rewrite Hj, Hf in Hm. congruence.
    + intros e Hj. rewrite Hj in Hm. congruence.
Qed.

(** Status 400 with the body [{"error": "bad intent"}]: one call, and a
    [ValidationError] with code [VALIDATION_ERROR], status 400 and the
    message of the body. *)
Lemma client_error_mapping_witness :
  request origin_URL_new (script [Resolved r400]) example_client delete_42 =
    (Throw (ThrownSupp {| supp_name := "ValidationError"; supp_message := "bad intent";
                          status := 400; code := "VALIDATION_ERROR" |}),
     {| issued := 1;
        log := [EvFetch url_42 (arm example_client (request_init example_client delete_42))] |}).
Proof.
  refine (proj1 (client_error_mapping origin_URL_new (script [Resolved r400])
                   example_client delete_42 url_42 r400 "bad intent"
                   eq_refl _ eq_refl _ eq_refl)).
  - vm_compute. congruence.
  - split; vm_compute; congruence.
Defined.

(** ** Success (C7) *)

(** C7, as amended.  When the attempts before it were transient, a 2xx
    answer whose body decodes to a value other than [null] makes
    [request] return at once the [data] of the body if that is there and
    not [null], else the body: no sleep and no call follows. *)
Theorem success_returns_payload URL_new net this options url (k : nat) r v :
  buildUrl URL_new this (path options) (query options) = Return url ->
  Z.of_nat k <= maxRetries this ->
  (forall i, (i < k)%nat -> transient (net i)) ->
  net k = Resolved r -> 200 <= resp_status r < 300 ->
  resp_json r = Decoded v -> v <> JNull ->
  request URL_new net this options =
    (Return (payload v),
     {| issued := S k;
        log := alternating (EvFetch url (arm this (request_init this options)))
                 (backoff <$> seqZ 0 (Z.of_nat k)) |}).
Proof.
  intros Hurl Hk Hpre Hr Hs Hj Hv.
  pose proof (request_run URL_new net this options url k Hurl Hk Hpre) as Hrun.
  cbn zeta in Hrun. rewrite Hr in Hrun.
  rewrite (attempt_on_success r v ltac:(lia) Hj Hv) in Hrun. exact Hrun.
Qed.

(** Status 200 with the body [{"data": {"id": "42"}}] on the first call:
    the payload is returned after that one call. *)
Lemma success_returns_payload_witness :
  request origin_URL_new (script [Resolved r200]) example_client delete_42 =
    (Return (JObj [("id", JStr "42")]),
     {| issued := 1;
        log := [EvFetch url_42 (arm example_client (request_init example_client delete_42))] |}).
Proof.
  refine (success_returns_payload origin_URL_new (script [Resolved r200])
            example_client delete_42 url_42 0 r200
            (JObj [("data", JObj [("id", JStr "42")])])
            eq_refl _ _ eq_refl _ eq_refl _).
  - vm_compute. congruence.
  - intros i Hi. lia.
  - split; vm_compute; congruence.
  - congruence.
Defined.

(** C7 as stated fails: on the body [{"data": null}] the [data] field
    is there, and what [request] returns is the whole body, not [null]. *)
Lemma null_data_counterexample :
  let body := JObj [("data", JNull)] in
  let run := request origin_URL_new
               (script [Resolved {| resp_status := 200; resp_json := Decoded body |}])
               example_client delete_42 in
  own_property "data" [("data", JNull)] = Some JNull /\
  run.1 = Return body /\
  run.1 <> Return JNull.
Proof. vm_compute. repeat split; congruence. Qed.

(** ** What every call carries (C3, C5) *)

Lemma fetches_app l1 l2 : fetches (l1 ++ l2) = fetches l1 ++ fetches l2.
Proof. apply omap_app. Qed.

(** Every call of the loop has the URL and the armed [init] it was given. *)
Lemma attempts_fetches net this url init indices :
  forall last w,
    exists j, fetches (log (attempts net this url init indices last w).2) =
              fetches (log w) ++ replicate j (url, arm this init).
Proof.
  induction indices as [|a rest IH]; intros last w.
  - exists 0%nat. simpl. by rewrite app_nil_r.
  - simpl. destruct (attempt_on (net (issued w))) as [v|e|e].
    + exists 1%nat. simpl. by rewrite fetches_app.
    + exists 1%nat. simpl. by rewrite fetches_app.
    + rewrite attempts_arm.
      match goal with
      | |- context [attempts net this url init rest ?l ?w'] =>
          destruct (IH l w') as [j Hj]
      end.
      exists (S j). rewrite Hj.
      destruct (a <? maxRetries this); simpl;
        rewrite ?fetches_app; simpl; rewrite ?app_nil_r, <- ?app_assoc; reflexivity.
Qed.

Lemma request_fetches URL_new net this options :
  exists j url, fetches (log (request URL_new net this options).2) =
                replicate j (url, arm this (request_init this options)).
Proof.
  unfold request. destruct (buildUrl _ _ _ _) as [url|e].
  - destruct (attempts_fetches net this url (request_init this options)
                (seqZ 0 (maxRetries this + 1)) None initial_world) as [j Hj].
    exists j, url. exact Hj.
  - exists 0%nat, "". reflexivity.
Qed.

Lemma request_init_headers this options :
  init_headers (request_init this options) =
    {[ "X-API-Key" := apiKey this; "Content-Type" := "application/json" ]}.
Proof.
  unfold request_init. destruct (body options); [|reflexivity].
  destruct (negb _); reflexivity.
Qed.

(** C3, as amended.  Every call of every request carries both headers:
    [X-API-Key] with the key of the client, and [Content-Type:
    application/json], whatever the method and with or without a body. *)
Theorem headers_on_every_attempt URL_new net this options :
  Forall (fun call : string * RequestInit =>
            init_headers call.2 !! "X-API-Key" = Some (apiKey this) /\
            init_headers call.2 !! "Content-Type" = Some "application/json")
         (fetches (log (request URL_new net this options).2)).
Proof.
  destruct (request_fetches URL_new net this options) as (j & url & ->).
  apply Forall_replicate. cbn [snd arm init_headers].
  rewrite request_init_headers. split.
  - apply lookup_insert_eq.
  - rewrite lookup_insert_ne by discriminate. apply lookup_singleton_eq.
Qed.

(** C3 as stated fails: the one call of a GET without a body carries
    [Content-Type: application/json]. *)
Lemma content_type_on_get_counterexample :
  exists url init,
    fetches (log (get origin_URL_new (script [Resolved r200]) example_client
                    "/api/routing" None).2) = [(url, init)] /\
    init_method init = GET /\ init_body init = None /\
    init_headers init !! "Content-Type" = Some "application/json".
Proof. eexists _, _. vm_compute. repeat split. Qed.

(** C5.  A GET sends no body: every call of a request whose method is
    GET has the method GET and no body, whatever [body] its descriptor
    carries. *)
Theorem get_sends_no_body URL_new net this path supplied query :
  let options := {| method := GET; path := path; body := supplied; query := query |} in
  init_body (request_init this options) = None /\
  Forall (fun call : string * RequestInit =>
            init_method call.2 = GET /\ init_body call.2 = None)
         (fetches (log (request URL_new net this options).2)).
Proof.
  intros options.
  assert (Hinit : init_method (request_init this options) = GET /\
                  init_body (request_init this options) = None).
  { unfold request_init, options. cbn [method body]. destruct supplied; split; reflexivity. }
  split; [apply Hinit|].
  destruct (request_fetches URL_new net this options) as (j & url & ->).
  apply Forall_replicate. exact Hinit.
Qed.

(** ** The failure contract (C4) *)

(** C4, as amended.  When the attempts before it were transient: a 4xx
    answer throws the [SuppError] of the table; a 5xx answer on the last
    attempt throws a [SuppError] with code [HTTP_<status>]; a timeout on
    the last attempt throws a [SuppError] with code [TIMEOUT] and status
    408 (the bodies inside the envelope).  A failure of the network on
    the last attempt throws the error of the transport itself, an
    [Error] with a name and a message and neither code nor status. *)
Theorem failure_contract URL_new net this options url (k : nat) :
  buildUrl URL_new this (path options) (query options) = Return url ->
  Z.of_nat k <= maxRetries this ->
  (forall i, (i < k)%nat -> transient (net i)) ->
  let w := {| issued := S k;
              log := alternating (EvFetch url (arm this (request_init this options)))
                       (backoff <$> seqZ 0 (Z.of_nat k)) |} in
  (forall r m,
     net k = Resolved r -> 400 <= resp_status r < 500 -> envelope_message r = Some m ->
     request URL_new net this options =
       (Throw (ThrownSupp {| supp_name := (kind_of_status (resp_status r)).1;
                             supp_message := m; status := resp_status r;
                             code := (kind_of_status (resp_status r)).2 |}), w)) /\
  (forall r m,
     net k = Resolved r -> 500 <= resp_status r -> envelope_message r = Some m ->
     Z.of_nat k = maxRetries this ->
     request URL_new net this options =
       (Throw (ThrownSupp {| supp_name := "SuppError"; supp_message := m;
                             status := resp_status r;
                             code := "HTTP_" +:+ Z_to_string (resp_status r) |}), w)) /\
  (forall d,
     net k = RejectedDOM d -> dom_name d = "AbortError" ->
     Z.of_nat k = maxRetries this ->
     request URL_new net this options =
       (Throw (ThrownSupp {| supp_name := "SuppError"; supp_message := "Request timed out";
                             status := 408; code := "TIMEOUT" |}), w)) /\
  (forall e,
     net k = RejectedError e ->
     Z.of_nat k = maxRetries this ->
     request URL_new net this options = (Throw (ThrownError e), w)).
Proof.
  intros Hurl Hk Hpre w.
  pose proof (request_run URL_new net this options url k Hurl Hk Hpre) as Hrun.
  cbn zeta in Hrun. fold w in Hrun.
  repeat split.
  - intros r m Hr Hs Hm. rewrite Hr in Hrun.
    rewrite (attempt_on_client_error r m) in Hrun by (lia || exact Hm).
    rewrite <- buildError_table by exact Hs. exact Hrun.
  - intros r m Hr Hs Hm Hlast. rewrite Hr in Hrun.
    rewrite (attempt_on_server_error r m Hs Hm) in Hrun. exact (Hrun Hlast).
  - intros d Hr Hd Hlast. rewrite Hr in Hrun.
    rewrite (attempt_on_abort d Hd) in Hrun. exact (Hrun Hlast).
  - intros e Hr Hlast. rewrite Hr in Hrun.
    rewrite attempt_on_network_error in Hrun. exact (Hrun Hlast).
Qed.

(** A timeout on the only attempt of a client without retries. *)
Lemma failure_contract_witness :
  request origin_URL_new (script [RejectedDOM AbortError])
    {| apiKey := "sk_live_abc123"; baseUrl := "https://api.example.com";
       maxRetries := 0; timeout := 30000 |} delete_42 =
  (Throw (ThrownSupp {| supp_name := "SuppError"; supp_message := "Request timed out";
                        status := 408; code := "TIMEOUT" |}),
   {| issued := 1;
      log := [EvFetch url_42
                (arm {| apiKey := "sk_live_abc123"; baseUrl := "https://api.example.com";
                        maxRetries := 0; timeout := 30000 |}
                   (request_init
                      {| apiKey := "sk_live_abc123"; baseUrl := "https://api.example.com";
                         maxRetries := 0; timeout := 30000 |} delete_42))] |}).
Proof.
  refine (proj1 (proj2 (proj2
    (failure_contract origin_URL_new (script [RejectedDOM AbortError])
       {| apiKey := "sk_live_abc123"; baseUrl := "https://api.example.com";
          maxRetries := 0; timeout := 30000 |} delete_42 url_42 0 eq_refl _ _)))
    AbortError eq_refl eq_refl eq_refl).
  - vm_compute. congruence.
  - intros i Hi. lia.
Defined.

(** C4 as stated fails: when the network fails on the last attempt, what
    [request] throws is the [TypeError] of the transport, which is no
    [SuppError] and has no code. *)
Lemma network_failure_counterexample :
  let run := request origin_URL_new
               (script [RejectedError (TypeError "fetch failed");
                        RejectedError (TypeError "fetch failed");
                        RejectedError (TypeError "fetch failed")])
               example_client delete_42 in
  run.1 = Throw (ThrownError (TypeError "fetch failed")) /\
  (forall e : SuppError, run.1 <> Throw (ThrownSupp e)) /\
  issued run.2 = 3%nat.
Proof. vm_compute. repeat split; congruence. Qed.

(** ** Timeouts (C6) *)

Section Swap.

(** Two transports that differ at the [k]-th call only, where the
    attempt records an error on both. *)
Variables net net' : nat -> fetch_outcome.
Variable k : nat.
Variables e1 e2 : thrown.
Hypothesis same : forall i, i <> k -> net i = net' i.
Hypothesis recorded : attempt_on (net k) = Recorded e1.
Hypothesis recorded' : attempt_on (net' k) = Recorded e2.

(** The effects are the same. *)
Lemma attempts_swap_world this url init indices :
  forall last last' w,
    (attempts net this url init indices last w).2 =
    (attempts net' this url init indices last' w).2.
Proof.
  induction indices as [|a rest IH]; intros last last' w; [reflexivity|].
  simpl. destruct (decide (issued w = k)) as [Hk|Hk].
  - rewrite Hk, recorded, recorded'. rewrite !attempts_arm. apply IH.
  - rewrite <- (same _ Hk).
    destruct (attempt_on (net (issued w))); try reflexivity.
    rewrite !attempts_arm. apply IH.
Qed.

(** Past the [k]-th call the two runs are the same run. *)
Lemma attempts_swap_after this url init indices :
  forall last w, (k < issued w)%nat ->
    attempts net this url init indices last w = attempts net' this url init indices last w.
Proof.
  induction indices as [|a rest IH]; intros last w Hw; [reflexivity|].
  simpl. rewrite <- (same (issued w)) by lia.
  destruct (attempt_on (net (issued w))); try reflexivity.
  rewrite !attempts_arm. apply IH.
  destruct (a <? maxRetries this); simpl; lia.
Qed.

(** The results are the same too, unless the [k]-th call is the last
    of the loop, whose recorded error is then what is thrown. *)
Lemma attempts_swap_outcome this url init indices :
  forall last w, (issued w <= k)%nat ->
    (attempts net this url init indices last w).1 =
    (attempts net' this url init indices last w).1
    \/ ((attempts net this url init indices last w).1 = Throw e1 /\
        length indices = S (k - issued w)).
Proof.
  induction indices as [|a rest IH]; intros last w Hw; [left; reflexivity|].
  simpl. destruct (decide (issued w = k)) as [Hk|Hk].
  - rewrite Hk, recorded, recorded'. rewrite !attempts_arm.
    destruct rest as [|a' rest'].
    + right. simpl. split; [reflexivity|]. f_equal. lia.
    + left. simpl.
      match goal with
      | |- context [issued ?w'] =>
          assert (Hw' : issued w' = S k) by (destruct (a <? maxRetries this); reflexivity);
          rewrite Hw'; clear Hw'
      end.
      rewrite <- (same (S k)) by lia.
      destruct (attempt_on (net (S k))); try reflexivity.
      rewrite !attempts_arm. f_equal. apply attempts_swap_after.
      destruct (a' <? maxRetries this), (a <? maxRetries this); simpl; lia.
  - rewrite <- (same _ Hk).
    destruct (attempt_on (net (issued w))); try (left; reflexivity).
    rewrite !attempts_arm.
    match goal with
    | |- context [attempts net this url init rest ?l ?w'] =>
        destruct (IH l w') as [Heq|[Heq Hlen]]
    end.
    + destruct (a <? maxRetries this); simpl; lia.
    + left. exact Heq.
    + right. split; [exact Heq|]. simpl. rewrite Hlen. f_equal.
      destruct (a <? maxRetries this); simpl; lia.
Qed.

End Swap.

(** C6.  An attempt that the timer aborts counts for the loop exactly as
    a 5xx answer does: put any 5xx answer (inside the envelope) in its
    place and the run has the same calls and the same sleeps, and the
    same result unless the aborted attempt was the last one allowed, in
    which case the error thrown has code [TIMEOUT] and status 408. *)
Theorem timeout_is_transient URL_new net this options (k : nat) d r m :
  net k = RejectedDOM d -> dom_name d = "AbortError" ->
  500 <= resp_status r <= 599 -> envelope_message r = Some m ->
  let net5 := <[k := Resolved r]> net in
  let timed_out :=
    Throw (ThrownSupp {| supp_name := "SuppError"; supp_message := "Request timed out";
                         status := 408; code := "TIMEOUT" |}) in
  (request URL_new net this options).2 = (request URL_new net5 this options).2 /\
  ((request URL_new net this options).1 = (request URL_new net5 this options).1 \/
   ((request URL_new net this options).1 = timed_out /\ maxRetries this = Z.of_nat k)) /\
  (forall url,
     buildUrl URL_new this (path options) (query options) = Return url ->
     Z.of_nat k = maxRetries this ->
     (forall i, (i < k)%nat -> transient (net i)) ->
     request URL_new net this options =
       (timed_out,
        {| issued := S k;
           log := alternating (EvFetch url (arm this (request_init this options)))
                    (backoff <$> seqZ 0 (Z.of_nat k)) |})).
Proof.
  intros Hk Hd Hs Hm net5 timed_out.
  assert (Hsame : forall i, i <> k -> net i = net5 i).
  { intros i Hi. unfold net5. by rewrite fn_lookup_insert_ne. }
  assert (Hrec : attempt_on (net k) = Recorded (ThrownSupp timeout_error)).
  { rewrite Hk. by apply attempt_on_abort. }
  assert (Hrec5 : attempt_on (net5 k) =
                  Recorded (ThrownSupp (SuppError_new m (resp_status r) None))).
  { unfold net5. rewrite fn_lookup_insert. apply attempt_on_server_error; [lia|exact Hm]. }
  split; [|split].
  - unfold request. destruct (buildUrl _ _ _ _) as [url|e]; [|reflexivity].
    eapply attempts_swap_world; eassumption.
  - unfold request. destruct (buildUrl _ _ _ _) as [url|e]; [|left; reflexivity].
    destruct (attempts_swap_outcome net net5 k _ _ Hsame Hrec Hrec5 this url
                (request_init this options) (seqZ 0 (maxRetries this + 1)) None
                initial_world ltac:(simpl; lia)) as [Heq|[Heq Hlen]].
    + left. exact Heq.
    + right. split; [exact Heq|].
      rewrite length_seqZ in Hlen. simpl in Hlen. lia.
  - intros url Hurl Hlast Hpre.
    pose proof (request_run URL_new net this options url k Hurl ltac:(lia) Hpre) as Hrun.
    cbn zeta in Hrun. rewrite Hrec in Hrun. exact (Hrun Hlast).
Qed.

(** A client with [maxRetries = 1] whose first call times out and whose
    second call succeeds: one sleep of 1000 ms, then the payload, as
    with a 503 in place of the timeout. *)
Lemma timeout_is_transient_witness :
  let this := {| apiKey := "sk_live_abc123"; baseUrl := "https://api.example.com";
                 maxRetries := 1; timeout := 30000 |} in
  let net := script [RejectedDOM AbortError; Resolved r200] in
  (request origin_URL_new net this delete_42).2 =
    (request origin_URL_new (<[0%nat := Resolved r503]> net) this delete_42).2 /\
  sleeps (log (request origin_URL_new net this delete_42).2) = [1000] /\
  (request origin_URL_new net this delete_42).1 = Return (JObj [("id", JStr "42")]).
Proof.
  intros this net.
  assert (Hs : 500 <= resp_status r503 <= 599) by (split; vm_compute; congruence).
  pose proof (timeout_is_transient origin_URL_new net this delete_42 0
                AbortError r503 "unavailable" eq_refl eq_refl Hs eq_refl) as H.
  cbn zeta in H. split; [exact (proj1 H)|].
  split; vm_compute; reflexivity.
Defined.

(** ** URLs (C8) *)

Lemma string_forall_app P s1 s2 :
  string_forall P (s1 +:+ s2) = string_forall P s1 && string_forall P s2.
Proof.
  induction s1 as [|c s1 IH]; [reflexivity|].
  simpl. rewrite IH. by rewrite andb_assoc.
Qed.







Lemma set_pair_fresh k v l : k ∉ l.*1 -> set_pair k v l = l ++ [(k, v)].
Proof.
  induction l as [|[k' v'] l IH]; intros Hk; [reflexivity|].
  simpl in *. apply not_elem_of_cons in Hk as [Hne Hk].
  destruct (String.eqb_spec k k'); [congruence|]. by rewrite IH.
Qed.



(** On a list that has none of the names, the parameters the query sets
    are appended in order. *)
Lemma set_entries_fresh entries :
  forall l, NoDup entries.*1 -> (forall k, k ∈ entries.*1 -> k ∉ l.*1) ->
    set_entries entries l = l ++ present entries.
Proof.
  induction entries as [|[k ov] rest IH]; intros l Hnd Hl.
  - simpl. by rewrite app_nil_r.
  - simpl in Hnd. apply NoDup_cons in Hnd as [Hfresh Hnd].
    unfold set_entries, present. simpl. destruct ov as [v|]; simpl.
    + fold (set_entries rest (set_pair k (String_of v) l)). fold (present rest).
      rewrite set_pair_fresh by (apply Hl; left).
      rewrite IH; [by rewrite <- app_assoc|exact Hnd|].
      intros k' Hk'. rewrite fmap_app. simpl. intros Hin.
      apply elem_of_app in Hin as [Hin|Hin].
      * by apply (Hl k'); [right|].
      * apply list_elem_of_singleton in Hin as ->. contradiction.
    + fold (set_entries rest l). fold (present rest).
      apply IH; [exact Hnd|]. intros k' Hk'. apply Hl. by right.
Qed.

Lemma append_nonempty s1 c s2 : s1 +:+ String c s2 <> "".
Proof. destruct s1; discriminate. Qed.

Lemma join_nonempty sep x xs : x <> "" -> join sep (x :: xs) <> "".
Proof.
  intros Hx. destruct xs as [|y ys]; [exact Hx|].
  destruct x; [contradiction|discriminate].
Qed.

Lemma serialize_params_nonempty p l : serialize_params (p :: l) <> "".
Proof.
  unfold serialize_params. rewrite fmap_cons.
  apply join_nonempty. apply append_nonempty.
Qed.

Lemma set_pair_nonempty k v l : set_pair k v l <> [].
Proof. destruct l as [|[k' v'] l]; simpl; [discriminate|]. by destruct (String.eqb k k'). Qed.

Lemma searchParams_set_query url k v :
  url_query (searchParams_set url k v) =
    Some (serialize_params (searchParams (searchParams_set url k v))).
Proof.
  unfold searchParams_set. cbn [url_query searchParams].
  pose proof (set_pair_nonempty k v (searchParams url)) as Hne.
  destruct (set_pair k v (searchParams url)) as [|p l]; [congruence|].
  pose proof (serialize_params_nonempty p l) as Hs.
  destruct (serialize_params (p :: l)); [congruence|reflexivity].
Qed.

(** The loop of [buildUrl] on the URL, field by field. *)
Lemma buildUrl_loop entries :
  forall url,
    let url' :=
      fold_left
        (fun url entry =>
           match entry with
           | (key, Some value) => searchParams_set url key (String_of value)
           | (_, None) => url
           end)
        entries url in
    url_base url' = url_base url /\
    url_hash url' = url_hash url /\
    searchParams url' = set_entries entries (searchParams url) /\
    (present entries = [] -> url' = url) /\
    (present entries <> [] -> url_query url' = Some (serialize_params (searchParams url'))).
Proof.
  induction entries as [|[k [v|]] rest IH]; intros url; cbn zeta.
  - repeat split. intros H. exfalso. by apply H.
  - simpl fold_left.
    destruct (IH (searchParams_set url k (String_of v))) as (Hb & Hh & Hp & Hnone & Hsome).
    split; [exact Hb|]. split; [exact Hh|]. split; [exact Hp|].
    split; [unfold present; simpl; discriminate|].
    intros _.
    assert (Hcase : present rest = [] \/ present rest <> [])
      by (destruct (present rest); [left; reflexivity|right; discriminate]).
    destruct Hcase as [E|E].
    + rewrite (Hnone E). apply searchParams_set_query.
    + exact (Hsome E).
  - simpl fold_left. apply IH.
Qed.







(** ** Construction (C10) *)

Lemma strip_trailing_slash_app s : strip_trailing_slash (s +:+ "/") = s.
Proof.
  induction s as [|c s IH]; [reflexivity|].
  change (String c s +:+ "/") with (String c (s +:+ "/")).
  cbn [strip_trailing_slash]. rewrite IH.
  destruct s; reflexivity.
Qed.

Lemma strip_trailing_slash_cons c c' s :
  strip_trailing_slash (String c (String c' s)) = String c (strip_trailing_slash (String c' s)).
Proof. reflexivity. Qed.

Lemma strip_trailing_slash_cases s :
  strip_trailing_slash s = s \/ s = strip_trailing_slash s +:+ "/".
Proof.
  induction s as [|c s IH]; [left; reflexivity|].
  destruct s as [|c' s'].
  - simpl. destruct (Ascii.eqb_spec c "/") as [->|]; [right|left]; reflexivity.
  - rewrite strip_trailing_slash_cons.
    destruct IH as [IH|IH]; [left|right].
    + by rewrite IH.
    + change (String c (String c' s') =
              String c (strip_trailing_slash (String c' s') +:+ "/")).
      by rewrite <- IH.
Qed.

(** C10.  [new Supp(apiKey, options)] throws at once on the empty key,
    and otherwise makes the client that keeps the key and, for what the
    options leave out, the defaults: the base URL
    [https://api.supp.support], 2 retries, 30000 ms.  The base URL loses
    one final slash if it has one. *)
Theorem Supp_new_spec apiKey options :
  Supp_new apiKey options =
    (if decide (apiKey = "") then
       Throw (ThrownError
                {| name := "Error";
                   message := "API key is required. Get one at https://supp.support/dashboard" |})
     else
       Return {| apiKey := apiKey;
                 baseUrl := strip_trailing_slash
                              (default "https://api.supp.support" (opt_baseUrl options));
                 maxRetries := default 2 (opt_maxRetries options);
                 timeout := default 30000 (opt_timeout options) |})
  /\ (forall c key, Supp_new (String c key) no_options =
        Return {| apiKey := String c key; baseUrl := "https://api.supp.support";
                  maxRetries := 2; timeout := 30000 |})
  /\ (forall s, strip_trailing_slash (s +:+ "/") = s)
  /\ (forall s, strip_trailing_slash s = s \/ s = strip_trailing_slash s +:+ "/").
Proof.
  split; [|split; [|split]].
  - unfold Supp_new. destruct apiKey; [reflexivity|].
    destruct (decide _) as [H|H]; [discriminate|reflexivity].
  - reflexivity.
  - apply strip_trailing_slash_app.
  - apply strip_trailing_slash_cases.
Qed.

(** ** Every run, whatever the transport *)

(** What an attempt can end in, read back from its result. *)
Lemma attempt_on_inv settled :
  match attempt_on settled with
  | Returned v =>
      exists r body, settled = Resolved r /\ ok r = true /\
        resp_json r = Decoded body /\ body <> JNull /\ v = payload body
  | Threw e =>
      exists r m, settled = Resolved r /\ ok r = false /\ resp_status r < 500 /\
        envelope_message r = Some m /\ e = ThrownSupp (buildError (resp_status r) m)
  | Recorded e =>
      (exists r m, settled = Resolved r /\ ok r = false /\ 500 <= resp_status r /\
         envelope_message r = Some m /\
         e = ThrownSupp (SuppError_new m (resp_status r) None)) \/
      (exists d, settled = RejectedDOM d /\ dom_name d = "AbortError" /\
         e = ThrownSupp timeout_error) \/
      (exists d, settled = RejectedDOM d /\ dom_name d <> "AbortError" /\ e = ThrownDOM d) \/
      (exists err, e = ThrownError err)
  end.
Proof.
  destruct settled as [r|d|err]; unfold attempt_on; simpl.
  - destruct (ok r) eqn:Hok.
    + destruct (resp_json r) as [body|err] eqn:Hj; simpl; [|by right; right; right; eexists].
      destruct body; simpl;
        try (by exists r; eexists; repeat split; try eassumption; try discriminate).
      by right; right; right; eexists.
    + assert (Hm : forall error m,
                get_field (match resp_json r with Decoded v => v | Undecodable _ => JObj [] end)
                  "error" = Some error ->
                ToString (nullish error (JStr (synthesized (resp_status r)))) = Some m ->
                envelope_message r = Some m).
      { unfold envelope_message. intros error m.
        destruct (resp_json r) as [[| | | | |fields]|e]; simpl;
          try discriminate; try (by intros [= <-] [= <-]).
        intros [= <-]. by destruct (own_property "error" fields) as [[]|]. }
      destruct (get_field _ "error") as [error|] eqn:Hg; simpl;
        [|by right; right; right; eexists].
      fold (synthesized (resp_status r)).
      destruct (ToString _) as [m|] eqn:Hts; simpl; [|by right; right; right; eexists].
      specialize (Hm error m eq_refl Hts).
      destruct (Z.ltb_spec (resp_status r) 500); simpl.
      * by exists r, m.
      * left. by exists r, m.
  - destruct (String.eqb_spec (dom_name d) "AbortError"); simpl.
    + right; left. by exists d.
    + right; right; left. by exists d.
  - right; right; right. by eexists.
Qed.

(** The loop, run to its end: it stops at the first attempt that is not
    transient, or at the last index. *)
Lemma attempts_decided net this url init (n : nat) :
  forall a last w,
    a + Z.of_nat n = maxRetries this + 1 ->
    (n = 0%nat /\
     attempts net this url init (seqZ a (Z.of_nat n)) last w =
       (Throw (default (ThrownSupp fallback_error) last), w)) \/
    exists k : nat,
      (k < n)%nat /\
      (forall i, (i < k)%nat -> transient (net (issued w + i)%nat)) /\
      (transient (net (issued w + k)%nat) -> S k = n) /\
      attempts net this url init (seqZ a (Z.of_nat n)) last w =
        (outcome_of (attempt_on (net (issued w + k)%nat)),
         {| issued := (issued w + S k)%nat;
            log := log w ++
                   flat_map (fun d => [EvFetch url (arm this init); EvSleep d])
                     (backoff <$> seqZ a (Z.of_nat k)) ++
                   [EvFetch url (arm this init)] |}).
Proof.
  induction n as [|n IH]; intros a last w Ha.
  - left. split; reflexivity.
  - right. rewrite seqZ_cons by lia.
    replace (Z.pred (Z.of_nat (S n))) with (Z.of_nat n) by lia.
    simpl attempts. destruct (attempt_on (net (issued w))) as [v|e|e] eqn:Hat.
    + exists 0%nat. rewrite Nat.add_0_r, Hat. simpl.
      repeat split; try lia.
      * intros [e He]. congruence.
      * do 2 f_equal. lia.
    + exists 0%nat. rewrite Nat.add_0_r, Hat. simpl.
      repeat split; try lia.
      * intros [e' He]. congruence.
      * do 2 f_equal. lia.
    + rewrite attempts_arm.
      set (w0 := {| issued := S (issued w); log := log w ++ [EvFetch url (arm this init)] |}).
      set (w1 := if a <? maxRetries this then sleep (backoff a) w0 else w0).
      assert (Hiss : issued w1 = S (issued w)) by (unfold w1; by destruct (a <? maxRetries this)).
      destruct (IH (Z.succ a) (Some e) w1 ltac:(lia))
        as [[-> Heq]|(k & Hk & Hpre & Hlast & Heq)]; rewrite Heq; clear Heq.
      * exists 0%nat. rewrite Nat.add_0_r, Hat. simpl.
        split; [lia|]. split; [intros i Hi; lia|]. split; [reflexivity|].
        unfold w1. destruct (Z.ltb_spec a (maxRetries this)); [lia|].
        unfold w0. do 2 f_equal. lia.
      * rewrite Hiss in *.
        replace (S (issued w) + k)%nat with (issued w + S k)%nat in * by lia.
        exists (S k). split; [lia|]. split; [|split].
        -- intros [|i] Hi.
           ++ rewrite Nat.add_0_r. by exists e.
           ++ replace (issued w + S i)%nat with (S (issued w) + i)%nat by lia.
              apply Hpre. lia.
        -- intros Ht. specialize (Hlast Ht). lia.
        -- f_equal. f_equal; [lia|].
           unfold w1. destruct (Z.ltb_spec a (maxRetries this)); [|lia].
           rewrite (seqZ_cons a (Z.of_nat (S k))) by lia.
           replace (Z.pred (Z.of_nat (S k))) with (Z.of_nat k) by lia.
           simpl. rewrite <- !app_assoc. reflexivity.
Qed.

(** The run of [request], whatever the transport answers: no attempt at
    all when [maxRetries] is negative; otherwise a first attempt that is
    not transient, or the last one allowed, decides. *)
Lemma request_decided URL_new net this options url :
  buildUrl URL_new this (path options) (query options) = Return url ->
  (maxRetries this < 0 /\
   request URL_new net this options = (Throw (ThrownSupp fallback_error), initial_world)) \/
  exists k : nat,
    Z.of_nat k <= maxRetries this /\
    (forall i, (i < k)%nat -> transient (net i)) /\
    (transient (net k) -> Z.of_nat k = maxRetries this) /\
    request URL_new net this options =
      (outcome_of (attempt_on (net k)),
       {| issued := S k;
          log := alternating (EvFetch url (arm this (request_init this options)))
                   (backoff <$> seqZ 0 (Z.of_nat k)) |}).
Proof.
  intros Hurl. unfold request. rewrite Hurl.
  destruct (Z.lt_ge_cases (maxRetries this) 0) as [Hneg|Hpos].
  - left. split; [exact Hneg|]. rewrite seqZ_nil by lia. reflexivity.
  - right.
    destruct (attempts_decided net this url (request_init this options)
                (Z.to_nat (maxRetries this + 1)) 0 None initial_world ltac:(lia))
      as [[Hn _]|(k & Hk & Hpre & Hlast & Heq)]; [lia|].
    rewrite Z2Nat.id in Heq by lia.
    exists k. split; [lia|]. split; [exact Hpre|]. split.
    + intros Ht. specialize (Hlast Ht). lia.
    + rewrite Heq. simpl. rewrite alternating_snoc. reflexivity.
Qed.

Lemma backoff_bounds attempt : 0 <= attempt -> 1000 <= backoff attempt <= 8000.
Proof.
  intros Ha. unfold backoff.
  assert (1 <= 2 ^ attempt) by (apply Z.pow_le_mono_r with (b := 0) (a := 2); lia || (change (2 ^ 0) with 1; lia)).
  lia.
Qed.

Lemma payload_not_null body : body <> JNull -> payload body <> JNull.
Proof.
  intros Hb. destruct body as [| | | | |fields]; simpl; try congruence.
  destruct (own_property "data" fields) as [[]|]; congruence.
Qed.

Lemma ok_range r : ok r = true <-> 200 <= resp_status r <= 299.
Proof.
  unfold ok. rewrite andb_true_iff, !Z.leb_le. reflexivity.
Qed.

(** X2.  Whatever the transport answers, the effects of [request] are
    none at all, or [k + 1] calls of one URL and one [init] with
    [k <= maxRetries], separated by sleeps of [backoff 0], ...,
    [backoff (k - 1)]: never more than [maxRetries + 1] calls, never a
    sleep before the first call or after the last. *)
Theorem request_log_shape URL_new net this options :
  let w := (request URL_new net this options).2 in
  (issued w = 0%nat /\ log w = []) \/
  exists (k : nat) url,
    Z.of_nat k <= maxRetries this /\
    issued w = S k /\
    log w = alternating (EvFetch url (arm this (request_init this options)))
              (backoff <$> seqZ 0 (Z.of_nat k)).
Proof.
  cbn zeta. destruct (buildUrl URL_new this (path options) (query options)) as [url|e] eqn:Hurl.
  - destruct (request_decided URL_new net this options url Hurl)
      as [[_ ->]|(k & Hk & _ & _ & ->)].
    + left. split; reflexivity.
    + right. exists k, url. repeat split. exact Hk.
  - left. unfold request. rewrite Hurl. split; reflexivity.
Qed.

(** X3.  A value that [request] returns is the payload of a 2xx answer:
    the answer to its last call had a status in [200,299] and a body
    that decoded to a value other than [null], every call before it
    failed transiently, and the value returned is never [null]. *)
Theorem request_return_is_success_payload URL_new net this options v :
  (request URL_new net this options).1 = Return v ->
  exists (k : nat) r body,
    issued (request URL_new net this options).2 = S k /\
    Z.of_nat k <= maxRetries this /\
    (forall i, (i < k)%nat -> transient (net i)) /\
    net k = Resolved r /\ 200 <= resp_status r <= 299 /\
    resp_json r = Decoded body /\ body <> JNull /\
    v = payload body /\ v <> JNull.
Proof.
  intros Hret.
  destruct (buildUrl URL_new this (path options) (query options)) as [url|e] eqn:Hurl;
    [|unfold request in Hret; rewrite Hurl in Hret; discriminate].
  destruct (request_decided URL_new net this options url Hurl)
    as [[_ Heq]|(k & Hk & Hpre & _ & Heq)]; rewrite Heq in *; [discriminate|].
  simpl in Hret. pose proof (attempt_on_inv (net k)) as Hinv.
  destruct (attempt_on (net k)) as [v'|e|e]; try discriminate.
  injection Hret as ->.
  destruct Hinv as (r & body & Hr & Hok & Hj & Hb & ->).
  exists k, r, body. repeat split; try assumption.
  - by apply ok_range.
  - by apply ok_range.
  - by apply payload_not_null.
Qed.

(** One call, answered with status 200 and [{"data": {"id": "42"}}]. *)
Lemma request_return_is_success_payload_witness :
  exists (k : nat) r body,
    issued (request origin_URL_new (script [Resolved r200]) example_client delete_42).2 = S k /\
    Z.of_nat k <= maxRetries example_client /\
    (forall i, (i < k)%nat -> transient (script [Resolved r200] i)) /\
    script [Resolved r200] k = Resolved r /\ 200 <= resp_status r <= 299 /\
    resp_json r = Decoded body /\ body <> JNull /\
    JObj [("id", JStr "42")] = payload body /\ JObj [("id", JStr "42")] <> JNull.
Proof.
  exact (request_return_is_success_payload origin_URL_new (script [Resolved r200])
           example_client delete_42 (JObj [("id", JStr "42")]) eq_refl).
Defined.

(** X4.  With a negative [maxRetries] the loop has no iteration:
    [request] calls nothing and throws the [SuppError] "Request failed
    after retries" with status 500.  With [maxRetries >= 0] at least one
    call is made. *)
Theorem negative_maxRetries_makes_no_call URL_new net this options url :
  buildUrl URL_new this (path options) (query options) = Return url ->
  (maxRetries this < 0 ->
     request URL_new net this options =
       (Throw (ThrownSupp {| supp_name := "SuppError";
                             supp_message := "Request failed after retries";
                             status := 500; code := "HTTP_500" |}),
        {| issued := 0; log := [] |})) /\
  (0 <= maxRetries this -> (1 <= issued (request URL_new net this options).2)%nat).
Proof.
  intros Hurl.
  destruct (request_decided URL_new net this options url Hurl)
    as [[Hneg ->]|(k & Hk & _ & _ & ->)]; split; intros H; try lia; try reflexivity.
  simpl. lia.
Qed.

Lemma negative_maxRetries_makes_no_call_witness :
  let this := {| apiKey := "sk_live_abc123"; baseUrl := "https://api.example.com";
                 maxRetries := -1; timeout := 30000 |} in
  request origin_URL_new (script [Resolved r200]) this delete_42 =
    (Throw (ThrownSupp {| supp_name := "SuppError";
                          supp_message := "Request failed after retries";
                          status := 500; code := "HTTP_500" |}),
     {| issued := 0; log := [] |}).
Proof.
  intros this.
  refine (proj1 (negative_maxRetries_makes_no_call origin_URL_new (script [Resolved r200])
                   this delete_42 url_42 eq_refl) _).
  vm_compute. reflexivity.
Defined.

(** X5.  A base URL that the parser does not take makes [request] fail
    before any call, whatever the transport: what is thrown is the
    [TypeError] of the parser, not a [SuppError]. *)
Theorem invalid_url_fails_before_any_call URL_new net this options :
  URL_new (path options) (baseUrl this) = None ->
  exists e, request URL_new net this options = (Throw (ThrownError e), initial_world) /\
            name e = "TypeError".
Proof.
  intros Hnone. unfold request, buildUrl. rewrite Hnone. by eexists.
Qed.

Lemma invalid_url_fails_before_any_call_witness :
  exists e,
    request (fun _ _ => None) (script [Resolved r200]) example_client delete_42 =
      (Throw (ThrownError e), initial_world) /\
    name e = "TypeError".
Proof.
  exact (invalid_url_fails_before_any_call (fun _ _ => None) (script [Resolved r200])
           example_client delete_42 eq_refl).
Defined.

(** X6.  The sleeps of a request: the i-th lasts [backoff i], so between
    1000 and 8000 ms; there is one less than there are calls, at most
    [maxRetries] of them, and together they last no more than
    [8000 * maxRetries] ms. *)
Theorem request_sleeps_bounded URL_new net this options :
  let w := (request URL_new net this options).2 in
  (forall (i : nat) d, sleeps (log w) !! i = Some d -> d = backoff (Z.of_nat i)) /\
  Forall (fun d => 1000 <= d <= 8000) (sleeps (log w)) /\
  length (sleeps (log w)) = pred (issued w) /\
  Z.of_nat (length (sleeps (log w))) <= Z.max 0 (maxRetries this) /\
  foldr Z.add 0 (sleeps (log w)) <= 8000 * Z.max 0 (maxRetries this).
Proof.
  cbn zeta.
  assert (Hshape :
    (issued (request URL_new net this options).2 = 0%nat /\
     sleeps (log (request URL_new net this options).2) = []) \/
    exists k : nat, Z.of_nat k <= maxRetries this /\
      issued (request URL_new net this options).2 = S k /\
      sleeps (log (request URL_new net this options).2) = backoff <$> seqZ 0 (Z.of_nat k)).
  { destruct (buildUrl URL_new this (path options) (query options)) as [url|e] eqn:Hurl.
    - destruct (request_decided URL_new net this options url Hurl)
        as [[_ ->]|(k & Hk & _ & _ & ->)]; [by left|].
      right. exists k. cbn [snd issued log]. by rewrite sleeps_alternating.
    - left. unfold request. by rewrite Hurl. }
  destruct Hshape as [[-> ->]|(k & Hk & -> & ->)].
  - split; [intros i d; by rewrite lookup_nil|].
    split; [constructor|]. simpl. lia.
  - assert (Hall : Forall (fun d => 1000 <= d <= 8000) (backoff <$> seqZ 0 (Z.of_nat k))).
    { apply Forall_fmap, Forall_forall. intros a Ha. apply elem_of_seqZ in Ha.
      simpl. apply backoff_bounds. lia. }
    assert (Hlen : length (backoff <$> seqZ 0 (Z.of_nat k)) = k)
      by (rewrite length_fmap, length_seqZ; lia).
    split; [|split; [exact Hall|split; [simpl; exact Hlen|split; [lia|]]]].
    + intros i d Hd. rewrite list_lookup_fmap in Hd.
      destruct (seqZ 0 (Z.of_nat k) !! i) as [a|] eqn:Ha; [|discriminate].
      apply lookup_seqZ in Ha as [-> _]. simpl in Hd. injection Hd as <-. f_equal; lia.
    + transitivity (8000 * Z.of_nat (length (backoff <$> seqZ 0 (Z.of_nat k)))); [|lia].
      clear Hlen. induction Hall as [|d ds Hd _ IH]; simpl; [lia|].
      rewrite Nat2Z.inj_succ. lia.
Qed.

(** X7.  [request] never lets the [AbortError] of the timer out: a
    [DOMException] that it throws has another name. *)
Theorem request_never_throws_AbortError URL_new net this options :
  match (request URL_new net this options).1 with
  | Throw (ThrownDOM d) => dom_name d <> "AbortError"
  | _ => True
  end.
Proof.
  destruct (buildUrl URL_new this (path options) (query options)) as [url|e] eqn:Hurl.
  - destruct (request_decided URL_new net this options url Hurl)
      as [[_ ->]|(k & _ & _ & _ & ->)]; [exact I|].
    simpl. pose proof (attempt_on_inv (net k)) as Hinv.
    destruct (attempt_on (net k)) as [v|e|e]; simpl; [exact I| |].
    + destruct Hinv as (r & m & _ & _ & _ & _ & ->). exact I.
    + destruct Hinv as [(r & m & _ & _ & _ & _ & ->)|[(d & _ & _ & ->)|
                        [(d & _ & Hd & ->)|(err & ->)]]]; try exact I. exact Hd.
  - unfold request. rewrite Hurl. unfold buildUrl in Hurl.
    destruct (URL_new _ _); [discriminate|]. injection Hurl as <-. exact I.
Qed.

(** ** The errors of [buildError] *)

Lemma Z_to_string_inj n n' : Z_to_string n = Z_to_string n' -> n = n'.
Proof.
  unfold Z_to_string. intros H. apply DecimalZ.to_int_inj.
  assert (Hgood : forall z, Z.to_int z <> Decimal.Pos Decimal.Nil /\
                            Z.to_int z <> Decimal.Neg Decimal.Nil).
  { intros [|p|p]; simpl; split; try discriminate;
      intros [= Hp]; by apply DecimalPos.Unsigned.to_uint_nonnil in Hp. }
  destruct (Hgood n) as [Hn1 Hn2], (Hgood n') as [Hn1' Hn2'].
  pose proof (NilZero.isi _ Hn1 Hn2) as E. pose proof (NilZero.isi _ Hn1' Hn2') as E'.
  rewrite H in E. congruence.
Qed.

Lemma buildError_status_message s m :
  status (buildError s m) = s /\ supp_message (buildError s m) = m.
Proof.
  unfold buildError.
  repeat match goal with
         | |- context [?a =? ?b] => destruct (Z.eqb_spec a b) as [->|]; [by split|]
         end.
  by split.
Qed.

Lemma buildError_generic s m :
  s < 400 \/ 429 < s ->
  buildError s m = SuppError_new m s None.
Proof.
  intros Hs. unfold buildError.
  repeat match goal with
         | |- context [?a =? ?b] => destruct (Z.eqb_spec a b) as [->|]; [lia|]
         end.
  reflexivity.
Qed.

(** X11.  The error that [buildError] makes keeps the status and the
    message it is given, for every status; and its code tells the status:
    two errors with the same code were made for the same status. *)
Theorem buildError_code_determines_status :
  (forall s m, status (buildError s m) = s /\ supp_message (buildError s m) = m) /\
  (forall s s' m m', code (buildError s m) = code (buildError s' m') -> s = s').
Proof.
  split; [apply buildError_status_message|].
  intros s s' m m'. unfold buildError.
  repeat match goal with
         | |- context [?a =? ?b] => destruct (Z.eqb_spec a b) as [->|]
         end; simpl; try discriminate; try reflexivity.
  intros [= H]. by apply Z_to_string_inj.
Qed.

(** ** More of every run *)

(** X8.  A [SuppError] that [request] throws reports the answer to its
    last call: it is the error that [buildError] makes of the status and
    the message of that answer, which was not a 2xx (and for a status of
    500 or more was the answer to the last attempt allowed); or the last
    attempt allowed timed out and the error has status 408 and code
    [TIMEOUT]; or no call was made, with [maxRetries] negative. *)
Theorem thrown_SuppError_reports_last_response URL_new net this options e :
  (request URL_new net this options).1 = Throw (ThrownSupp e) ->
  (maxRetries this < 0 /\ issued (request URL_new net this options).2 = 0%nat /\
   e = fallback_error) \/
  exists k : nat,
    issued (request URL_new net this options).2 = S k /\
    ((exists r m,
        net k = Resolved r /\ ~ (200 <= resp_status r <= 299) /\
        envelope_message r = Some m /\
        e = buildError (resp_status r) m /\
        status e = resp_status r /\ supp_message e = m /\
        (resp_status r < 500 \/ Z.of_nat k = maxRetries this)) \/
     (exists d,
        net k = RejectedDOM d /\ dom_name d = "AbortError" /\
        status e = 408 /\ code e = "TIMEOUT" /\ Z.of_nat k = maxRetries this)).
Proof.
  intros Hthrow.
  destruct (buildUrl URL_new this (path options) (query options)) as [url|e0] eqn:Hurl.
  - destruct (request_decided URL_new net this options url Hurl)
      as [[Hneg Heq]|(k & Hk & _ & Hlast & Heq)]; rewrite Heq in *; simpl in Hthrow.
    + left. injection Hthrow as <-. by repeat split.
    + right. exists k. split; [reflexivity|].
      pose proof (attempt_on_inv (net k)) as Hinv.
      destruct (attempt_on (net k)) as [v|e'|e'] eqn:Hat; simpl in Hthrow; [discriminate| |].
      * destruct Hinv as (r & m & Hr & Hok & Hs & Hm & ->). injection Hthrow as <-.
        left. exists r, m.
        destruct (buildError_status_message (resp_status r) m) as [Hst Hmsg].
        repeat split; try assumption; [|by left].
        intros Hrange. apply ok_range in Hrange. congruence.
      * specialize (Hlast (ex_intro _ e' Hat)).
        destruct Hinv as [(r & m & Hr & Hok & Hs & Hm & ->)|[(d & Hd & Hn & ->)|
                          [(d & _ & _ & ->)|(err & ->)]]]; try discriminate.
        -- injection Hthrow as <-. left. exists r, m.
           rewrite <- buildError_generic by lia.
           destruct (buildError_status_message (resp_status r) m) as [Hst Hmsg].
           repeat split; try assumption; [|by right].
           intros Hrange. apply ok_range in Hrange. congruence.
        -- injection Hthrow as <-. right. exists d. by repeat split.
  - unfold request in Hthrow. rewrite Hurl in Hthrow. simpl in Hthrow.
    unfold buildUrl in Hurl. destruct (URL_new _ _); [discriminate|]. congruence.
Qed.

(** One call, answered with status 400 and [{"error": "bad intent"}]. *)
Lemma thrown_SuppError_reports_last_response_witness :
  let run := request origin_URL_new (script [Resolved r400]) example_client delete_42 in
  (maxRetries example_client < 0 /\ issued run.2 = 0%nat /\
   ValidationError "bad intent" = fallback_error) \/
  exists k : nat,
    issued run.2 = S k /\
    ((exists r m,
        script [Resolved r400] k = Resolved r /\ ~ (200 <= resp_status r <= 299) /\
        envelope_message r = Some m /\
        ValidationError "bad intent" = buildError (resp_status r) m /\
        status (ValidationError "bad intent") = resp_status r /\
        supp_message (ValidationError "bad intent") = m /\
        (resp_status r < 500 \/ Z.of_nat k = maxRetries example_client)) \/
     (exists d,
        script [Resolved r400] k = RejectedDOM d /\ dom_name d = "AbortError" /\
        status (ValidationError "bad intent") = 408 /\
        code (ValidationError "bad intent") = "TIMEOUT" /\
        Z.of_nat k = maxRetries example_client)).
Proof.
  exact (thrown_SuppError_reports_last_response origin_URL_new (script [Resolved r400])
           example_client delete_42 (ValidationError "bad intent") eq_refl).
Defined.

(** X9.  An answer that is not a 2xx and has a status under 400 (a 304,
    say) is handled as a client error: one call, no sleep, and a
    [SuppError] with that status and the code [HTTP_<status>] thrown at
    once. *)
Theorem status_below_400_is_thrown_at_once URL_new net this options url r m :
  buildUrl URL_new this (path options) (query options) = Return url ->
  0 <= maxRetries this ->
  net 0%nat = Resolved r ->
  resp_status r < 200 \/ 300 <= resp_status r < 400 ->
  envelope_message r = Some m ->
  request URL_new net this options =
    (Throw (ThrownSupp {| supp_name := "SuppError"; supp_message := m;
                          status := resp_status r;
                          code := "HTTP_" +:+ Z_to_string (resp_status r) |}),
     {| issued := 1; log := [EvFetch url (arm this (request_init this options))] |}).
Proof.
  intros Hurl Hn Hr Hs Hm.
  pose proof (request_run URL_new net this options url 0 Hurl ltac:(lia)
                ltac:(intros i Hi; lia)) as Hrun.
  cbn zeta in Hrun. rewrite Hr in Hrun.
  rewrite (attempt_on_client_error r m) in Hrun by (lia || exact Hm).
  rewrite buildError_generic in Hrun by lia. exact Hrun.
Qed.

(** Status 304, which has no body: the synthesized message. *)
Lemma status_below_400_is_thrown_at_once_witness :
  request origin_URL_new (script [Resolved r304]) example_client delete_42 =
    (Throw (ThrownSupp {| supp_name := "SuppError";
                          supp_message := "Request failed with status 304";
                          status := 304; code := "HTTP_304" |}),
     {| issued := 1;
        log := [EvFetch url_42 (arm example_client (request_init example_client delete_42))] |}).
Proof.
  refine (status_below_400_is_thrown_at_once origin_URL_new (script [Resolved r304])
            example_client delete_42 url_42 r304 "Request failed with status 304"
            eq_refl _ eq_refl _ eq_refl).
  - vm_compute. congruence.
  - right. split; vm_compute; congruence.
Defined.

(** X10.  The shorthands: every call of [post] and of [patch] has that
    method and, for body, the JSON text of the object given (none when
    none is given); every call of [delete] has the method DELETE and no
    body. *)
Theorem shorthands_method_and_body URL_new net this path supplied :
  Forall (fun call : string * RequestInit =>
            init_method call.2 = POST /\
            init_body call.2 = (fun b => JSON_stringify (JObj b)) <$> supplied)
         (fetches (log (post URL_new net this path supplied).2)) /\
  Forall (fun call : string * RequestInit =>
            init_method call.2 = PATCH /\
            init_body call.2 = (fun b => JSON_stringify (JObj b)) <$> supplied)
         (fetches (log (patch URL_new net this path supplied).2)) /\
  Forall (fun call : string * RequestInit =>
            init_method call.2 = DELETE /\ init_body call.2 = None)
         (fetches (log (delete URL_new net this path).2)).
Proof.
  unfold post, patch, delete. repeat split.
  all: match goal with
       | |- context [request ?u ?n ?t ?o] =>
           destruct (request_fetches u n t o) as (j & url & ->)
       end.
  all: apply Forall_replicate; destruct supplied; split; reflexivity.
Qed.

(** ** Construction and dispatch together *)

(** X12.  [maxRetries: 0] is kept as it is by the constructor (it is not
    taken for a missing option), and a client made with it calls exactly
    once and never sleeps, whatever the answer. *)
Theorem no_retries_client_calls_once URL_new net key options this request_options url :
  Supp_new key options = Return this ->
  opt_maxRetries options = Some 0 ->
  buildUrl URL_new this (path request_options) (query request_options) = Return url ->
  maxRetries this = 0 /\
  (request URL_new net this request_options).2 =
    {| issued := 1; log := [EvFetch url (arm this (request_init this request_options))] |}.
Proof.
  intros Hnew Hopt Hurl. unfold Supp_new in Hnew.
  destruct (falsy key); [discriminate|]. injection Hnew as <-.
  assert (Hmax : maxRetries (HttpClient_new key
                   {| opt_baseUrl := opt_baseUrl options;
                      opt_maxRetries := opt_maxRetries options;
                      opt_timeout := opt_timeout options |}) = 0)
    by (unfold HttpClient_new; simpl; by rewrite Hopt).
  split; [exact Hmax|].
  destruct (request_decided URL_new net _ request_options url Hurl)
    as [[Hneg _]|(k & Hk & _ & _ & ->)]; [lia|].
  rewrite Hmax in Hk. assert (k = 0%nat) as -> by lia. reflexivity.
Qed.

Lemma no_retries_client_calls_once_witness :
  let this := {| apiKey := "sk_live_abc123"; baseUrl := "https://api.example.com";
                 maxRetries := 0; timeout := 30000 |} in
  maxRetries this = 0 /\
  (request origin_URL_new (script [Resolved r503]) this delete_42).2 =
    {| issued := 1; log := [EvFetch url_42 (arm this (request_init this delete_42))] |}.
Proof.
  exact (no_retries_client_calls_once origin_URL_new (script [Resolved r503])
           "sk_live_abc123"
           {| opt_baseUrl := Some "https://api.example.com/"; opt_maxRetries := Some 0;
              opt_timeout := None |}
           _ delete_42 url_42 eq_refl eq_refl eq_refl).
Defined.

(** X13.  A client made without options: every call carries its key and
    is armed with a timeout of 30000 ms; a request makes at most three
    calls, and its sleeps are none, 1000 ms, or 1000 then 2000 ms. *)
Theorem default_client_budget URL_new net key this request_options :
  Supp_new key no_options = Return this ->
  let w := (request URL_new net this request_options).2 in
  (issued w <= 3)%nat /\
  (sleeps (log w) = [] \/ sleeps (log w) = [1000] \/ sleeps (log w) = [1000; 2000]) /\
  Forall (fun call : string * RequestInit =>
            init_signal call.2 = Some 30000 /\
            init_headers call.2 !! "X-API-Key" = Some key)
         (fetches (log w)).
Proof.
  intros Hnew w. unfold Supp_new in Hnew.
  destruct (falsy key); [discriminate|]. injection Hnew as Hthis.
  assert (Hmax : maxRetries this = 2) by (by rewrite <- Hthis).
  assert (Htime : timeout this = 30000) by (by rewrite <- Hthis).
  assert (Hkey : apiKey this = key) by (by rewrite <- Hthis).
  clear Hthis. subst w.
  split; [|split].
  - destruct (buildUrl URL_new this (path request_options) (query request_options))
      as [url|e] eqn:Hurl.
    + destruct (request_decided URL_new net this request_options url Hurl)
        as [[_ ->]|(k & Hk & _ & _ & ->)]; simpl in *; lia.
    + unfold request. rewrite Hurl. simpl. lia.
  - destruct (buildUrl URL_new this (path request_options) (query request_options))
      as [url|e] eqn:Hurl.
    + destruct (request_decided URL_new net this request_options url Hurl)
        as [[_ ->]|(k & Hk & _ & _ & ->)]; [by left|].
      cbn [snd log]. rewrite sleeps_alternating.
      destruct k as [|[|[|k]]]; [by left|by right; left|by right; right|lia].
    + unfold request. rewrite Hurl. by left.
  - destruct (request_fetches URL_new net this request_options) as (j & url & ->).
    apply Forall_replicate. cbn [snd arm init_signal init_headers].
    rewrite request_init_headers, Htime, Hkey. split; [reflexivity|].
    apply lookup_insert_eq.
Qed.

Lemma default_client_budget_witness :
  let this := {| apiKey := "sk_live_abc123"; baseUrl := "https://api.supp.support";
                 maxRetries := 2; timeout := 30000 |} in
  let w := (request origin_URL_new (script [Resolved r503; Resolved r200]) this delete_42).2 in
  (issued w <= 3)%nat /\
  (sleeps (log w) = [] \/ sleeps (log w) = [1000] \/ sleeps (log w) = [1000; 2000]) /\
  Forall (fun call : string * RequestInit =>
            init_signal call.2 = Some 30000 /\
            init_headers call.2 !! "X-API-Key" = Some "sk_live_abc123")
         (fetches (log w)).
Proof.
  exact (default_client_budget origin_URL_new (script [Resolved r503; Resolved r200])
           "sk_live_abc123" _ delete_42 eq_refl).
Defined.

(** ** The resources *)

Lemma request_fetches_url URL_new net this options url :
  buildUrl URL_new this (path options) (query options) = Return url ->
  exists j, fetches (log (request URL_new net this options).2) =
            replicate j (url, arm this (request_init this options)).
Proof.
  intros Hurl. unfold request. rewrite Hurl.
  destruct (attempts_fetches net this url (request_init this options)
              (seqZ 0 (maxRetries this + 1)) None initial_world) as [j Hj].
  by exists j.
Qed.

Lemma request_return_not_null URL_new net this options v :
  (request URL_new net this options).1 = Return v -> v <> JNull.
Proof.
  intros Hret.
  destruct (buildUrl URL_new this (path options) (query options)) as [url|e] eqn:Hurl;
    [|unfold request in Hret; rewrite Hurl in Hret; discriminate].
  destruct (request_decided URL_new net this options url Hurl)
    as [[_ Heq]|(k & _ & _ & _ & Heq)]; rewrite Heq in *; [discriminate|].
  simpl in Hret. pose proof (attempt_on_inv (net k)) as Hinv.
  destruct (attempt_on (net k)) as [v'|e|e]; try discriminate.
  injection Hret as ->. destruct Hinv as (r & body & _ & _ & _ & Hb & ->).
  by apply payload_not_null.
Qed.

(** On a path without parameters of its own, the URL of a query. *)
Lemma buildUrl_fresh URL_new this path entries url0 :
  URL_new path (baseUrl this) = Some url0 ->
  searchParams url0 = [] ->
  NoDup entries.*1 ->
  buildUrl URL_new this path (Some entries) =
    Return (if present entries is [] then URL_toString url0
            else url_base url0 +:+ ("?" +:+ serialize_params (present entries))
                 +:+ (if url_hash url0 is Some h then "#" +:+ h else "")).
Proof.
  intros Hparse H0 Hnd. unfold buildUrl. rewrite Hparse. f_equal.
  destruct (buildUrl_loop entries url0) as (Hb & Hh & Hp & Hnone & Hsome).
  cbn zeta in *.
  rewrite H0, set_entries_fresh in Hp; [|exact Hnd|intros k _; apply not_elem_of_nil].
  simpl in Hp.
  destruct (present entries) as [|p ps] eqn:E.
  - by rewrite Hnone.
  - unfold URL_toString. rewrite Hb, Hh, Hsome, Hp by discriminate. reflexivity.
Qed.

(** [v.map(f)] on an array whose items [f] takes. *)
Lemma js_map_items {B} (f : json -> outcome B) items :
  Forall (fun x => exists y, f x = Return y) items ->
  exists ys, js_map f (JArr items) = Return ys /\
             Forall2 (fun x y => f x = Return y) items ys.
Proof.
  induction 1 as [|x items [y Hy] _ (ys & Hys & Hall)]; simpl.
  - exists []. split; [reflexivity|constructor].
  - exists (y :: ys). simpl in Hys. rewrite Hy, Hys. split; [reflexivity|by constructor].
Qed.

Lemma field_not_null raw k :
  raw <> JNull -> field raw k = Return (property raw k).
Proof. intros Hraw. unfold field. destruct raw; simpl; try reflexivity; congruence. Qed.

Lemma toConversation_not_null raw :
  raw <> JNull -> toConversation raw = Return (conversation_of raw).
Proof.
  intros Hraw. unfold toConversation. rewrite !(field_not_null raw) by exact Hraw.
  reflexivity.
Qed.

Lemma toConversation_null :
  exists e, toConversation JNull = Throw (ThrownError e) /\ name e = "TypeError".
Proof. by eexists. Qed.

(** [v.map(f)] stops at the first item on which [f] throws. *)
Lemma js_map_throws {B} (f : json -> outcome B) items x e :
  x ∈ items -> (forall y, y ∈ items -> f y = Throw e \/ exists z, f y = Return z) ->
  f x = Throw e ->
  js_map f (JArr items) = Throw e.
Proof.
  intros Hin Hall Hx. induction items as [|y items IH]; [by apply elem_of_nil in Hin|].
  simpl in *. destruct (Hall y ltac:(left)) as [Hy|[z Hz]]; [by rewrite Hy|].
  rewrite Hz. apply elem_of_cons in Hin as [->|Hin]; [congruence|].
  rewrite IH; [reflexivity|exact Hin|]. intros y' Hy'. apply Hall. by right.
Qed.

(** X14.  Classification on the wire: every call of [Supp.classify] is a
    POST whose body has the message and both flags as booleans, [false]
    for a flag that is left out.  So the string shorthand is the same
    request as the params object with both flags [false], and
    [classifyWithPriority] the same as [classify] with
    [includePriority: true]. *)
Theorem classify_wire_body URL_new net supp message m :
  let params :=
    match message with
    | inl text => {| cp_message := text; includePriority := None; isBatch := None |}
    | inr params => params
    end in
  Forall (fun call : string * RequestInit =>
            init_method call.2 = POST /\
            init_body call.2 =
              Some (JSON_stringify
                      (JObj [("message", JStr (cp_message params));
                             ("include_priority", JBool (default false (includePriority params)));
                             ("is_batch", JBool (default false (isBatch params)))])))
         (fetches (log (Supp_classify URL_new net supp message).2)) /\
  Supp_classify URL_new net supp (inl m) =
    Supp_classify URL_new net supp
      (inr {| cp_message := m; includePriority := Some false; isBatch := Some false |}) /\
  Supp_classifyWithPriority URL_new net supp m =
    Supp_classify URL_new net supp
      (inr {| cp_message := m; includePriority := Some true; isBatch := Some false |}).
Proof.
  cbn zeta. split; [|split; reflexivity].
  unfold Supp_classify, Classify_run, post.
  match goal with
  | |- context [request ?u ?n ?t ?o] =>
      destruct (request_fetches u n t o) as (j & url & Hj);
      destruct (request u n t o) as [raw w]
  end.
  cbn [snd] in *. rewrite Hj. apply Forall_replicate. split; reflexivity.
Qed.

(** X15.  [Conversations.list] asks for [/api/conversations] with
    exactly the filters that are given, in the order status, priority,
    page, limit, the two numbers as the text that [String] prints for
    them, and for the bare URL when none is given (or no params at
    all); every call is a GET without a body. *)
Theorem conversations_list_url URL_new net client params url0 :
  URL_new "/api/conversations" (baseUrl client) = Some url0 ->
  searchParams url0 = [] ->
  let filters :=
    omap (fun p : string * option string => (fun v => (p.1, v)) <$> p.2)
      [("status", params ≫= clp_status);
       ("priority", params ≫= clp_priority);
       ("page", Number_toString <$> (params ≫= clp_page));
       ("limit", Number_toString <$> (params ≫= clp_limit))] in
  Forall (fun call : string * RequestInit =>
            call.1 =
              (if filters is [] then URL_toString url0
               else url_base url0 +:+ ("?" +:+ serialize_params filters)
                    +:+ (if url_hash url0 is Some h then "#" +:+ h else "")) /\
            init_method call.2 = GET /\ init_body call.2 = None)
         (fetches (log (Conversations_list URL_new net client params).2)).
Proof.
  intros Hparse H0 filters.
  assert (Hfilters : present (conversations_query params) = filters).
  { unfold filters, conversations_query, present.
    destruct params as [[[s|] [p|] [n|] [l|]]|]; reflexivity. }
  assert (Hnd : NoDup (conversations_query params).*1).
  { unfold conversations_query. simpl.
    repeat (apply NoDup_cons; split;
            [intros H; repeat (apply elem_of_cons in H as [H|H]; [discriminate|]);
             by apply elem_of_nil in H|]).
    apply NoDup_nil_2. }
  pose proof (buildUrl_fresh URL_new client "/api/conversations"
                (conversations_query params) url0 Hparse H0 Hnd) as Hurl.
  rewrite Hfilters in Hurl.
  unfold Conversations_list, get.
  match goal with
  | |- context [request ?u ?n ?t ?o] =>
      destruct (request_fetches_url u n t o _ Hurl) as (j & Hj);
      destruct (request u n t o) as [raw w]
  end.
  cbn [snd] in *. rewrite Hj. apply Forall_replicate. by repeat split.
Qed.

(** The call of the README, [list({ status: "escalated", limit: 10 })]. *)
Lemma conversations_list_url_witness :
  Forall (fun call : string * RequestInit =>
            call.1 = "https://api.example.com/api/conversations?status=escalated&limit=10" /\
            init_method call.2 = GET /\ init_body call.2 = None)
         (fetches (log (Conversations_list origin_URL_new (script [Resolved r200]) example_client
                          (Some {| clp_status := Some "escalated"; clp_priority := None;
                                   clp_page := None; clp_limit := Some (integer 10) |})).2)).
Proof.
  exact (conversations_list_url origin_URL_new (script [Resolved r200]) example_client
           (Some {| clp_status := Some "escalated"; clp_priority := None;
                    clp_page := None; clp_limit := Some (integer 10) |})
           {| url_base := "https://api.example.com/api/conversations"; url_query := None;
              searchParams := []; url_hash := None |} eq_refl eq_refl).
Defined.

(** X16.  What [Conversations.list] makes of the payload of its request,
    without another call: for an array of items none of which is [null],
    one conversation per item, in order; a [TypeError] (no [SuppError])
    when an item is [null] or the payload is no array. *)
Theorem conversations_list_result URL_new net client params raw :
  (get URL_new net client "/api/conversations" (Some (conversations_query params))).1
    = Return raw ->
  (Conversations_list URL_new net client params).2 =
    (get URL_new net client "/api/conversations" (Some (conversations_query params))).2 /\
  match raw with
  | JArr items =>
      if existsb is_null items
      then exists e, (Conversations_list URL_new net client params).1 = Throw (ThrownError e) /\
                     name e = "TypeError"
      else (Conversations_list URL_new net client params).1 =
             Return (conversation_of <$> items)
  | _ => exists e, (Conversations_list URL_new net client params).1 = Throw (ThrownError e) /\
                   name e = "TypeError"
  end.
Proof.
  unfold Conversations_list.
  destruct (get URL_new net client "/api/conversations" (Some (conversations_query params)))
    as [res w]. cbn [fst snd]. intros ->. split; [reflexivity|].
  destruct raw as [| | | |items|]; try (by eexists).
  cbn [mbind outcome_bind].
  destruct (existsb is_null items) eqn:Hnull.
  - apply existsb_exists in Hnull as (x & Hin & Hx). destruct x; try discriminate.
    destruct toConversation_null as (e & He & Hname). exists e. split; [|exact Hname].
    apply js_map_throws with (x := JNull); [by apply list_elem_of_In|..|exact He].
    intros y _. destruct y; try (right; eexists; by apply toConversation_not_null).
    by left.
  - assert (Hall : Forall (fun x => x <> JNull) items).
    { apply Forall_forall. intros x Hin ->.
      assert (existsb is_null items = true); [|congruence].
      apply existsb_exists. exists JNull. split; [by apply list_elem_of_In|reflexivity]. }
    clear Hnull. induction Hall as [|x items Hx _ IH]; [reflexivity|].
    simpl in *. rewrite (toConversation_not_null x Hx), IH. reflexivity.
Qed.

Lemma conversations_list_result_witness :
  let net := script [Resolved {| resp_status := 200;
                                 resp_json := Decoded (JObj [("data", JArr [JObj [("id", JStr "c1")]])]) |}] in
  (Conversations_list origin_URL_new net example_client None).1 =
    Return [conversation_of (JObj [("id", JStr "c1")])].
Proof.
  intros net.
  exact (proj2 (conversations_list_result origin_URL_new net example_client None
                  (JArr [JObj [("id", JStr "c1")]]) eq_refl)).
Defined.

(** X17.  [Approvals.list] returns the empty list, without an error and
    without another call, when the payload of its request has no
    [pending] (or a [null] one). *)
Theorem approvals_list_without_pending URL_new net client raw :
  (get URL_new net client "/api/approvals" None).1 = Return raw ->
  (forall fields p, raw = JObj fields -> own_property "pending" fields = Some p -> p = JNull) ->
  Approvals_list URL_new net client =
    (Return [], (get URL_new net client "/api/approvals" None).2).
Proof.
  intros Hret Hpending.
  pose proof (request_return_not_null _ _ _ _ _ Hret) as Hraw.
  unfold Approvals_list.
  destruct (get URL_new net client "/api/approvals" None) as [res w].
  cbn [fst snd] in *. subst res. f_equal.
  cbn [mbind outcome_bind]. rewrite (field_not_null raw "pending" Hraw).
  cbn [mbind outcome_bind].
  assert (Hn : nullish (property raw "pending") (JArr []) = JArr []).
  { destruct raw; try reflexivity. simpl.
    destruct (own_property "pending" fields) as [p|] eqn:Hp; [|reflexivity].
    by rewrite (Hpending fields p eq_refl Hp). }
  by rewrite Hn.
Qed.

(** A payload that is the empty object. *)
Lemma approvals_list_without_pending_witness :
  let net := script [Resolved {| resp_status := 200; resp_json := Decoded (JObj []) |}] in
  Approvals_list origin_URL_new net example_client =
    (Return [], (get origin_URL_new net example_client "/api/approvals" None).2).
Proof.
  intros net.
  refine (approvals_list_without_pending origin_URL_new net example_client (JObj []) eq_refl _).
  intros fields p [= <-]. discriminate.
Defined.

Lemma request_calls URL_new net this options :
  Forall (fun call : string * RequestInit =>
            buildUrl URL_new this (path options) (query options) = Return call.1 /\
            call.2 = arm this (request_init this options))
         (fetches (log (request URL_new net this options).2)).
Proof.
  destruct (buildUrl URL_new this (path options) (query options)) as [url|e] eqn:Hurl.
  - destruct (request_fetches_url URL_new net this options url Hurl) as [j ->].
    by apply Forall_replicate.
  - unfold request. rewrite Hurl. constructor.
Qed.

Lemma encodeURIComponent_chars id :
  string_forall (fun c => (is_uri_unreserved c || Ascii.eqb c "%") && negb (is_separator c))
    (encodeURIComponent id) = true.
Proof.
  induction id as [|c id IH]; [reflexivity|].
  cbn [encodeURIComponent]. rewrite string_forall_app, IH, andb_true_r.
  clear. destruct c as [[] [] [] [] [] [] [] []]; vm_compute; reflexivity.
Qed.

(** [encodeURIComponent] agrees with the table of its specification,
    byte by byte. *)
Lemma encodeURIComponent_table c s :
  encodeURIComponent (String c s) = uri_component_encoded c +:+ encodeURIComponent s.
Proof.
  cbn [encodeURIComponent]. f_equal.
  destruct c as [[] [] [] [] [] [] [] []]; vm_compute; reflexivity.
Qed.

Lemma decodeURIComponent_byte c s :
  decodeURIComponent (uri_component_encoded c +:+ s) = String c (decodeURIComponent s).
Proof. destruct c as [[] [] [] [] [] [] [] []]; reflexivity. Qed.

Lemma decodeURIComponent_encodeURIComponent id :
  decodeURIComponent (encodeURIComponent id) = id.
Proof.
  induction id as [|c id IH]; [reflexivity|].
  by rewrite encodeURIComponent_table, decodeURIComponent_byte, IH.
Qed.

(** X18.  An id given to a resource goes into the path percent-encoded,
    byte by byte as [encodeURIComponent] is specified: a letter, a digit
    and one of [-_.!~*'()] as it is, any other byte as [%] and its two
    upper-case hexadecimal digits.  The encoded id has none of
    [/ ? # & = + : @] or a space, and decoding gives the id back, so two
    ids never share an encoded form.  The ids [.] and [..] are left as
    they are: what becomes of such a segment is the affair of [new URL].
    The calls of [Routing.delete], [Approvals.approve],
    [Approvals.reject] and [Integrations.disconnect] go to the URL that
    [buildUrl] makes of the path with the encoded id, with their method
    and body. *)
Theorem ids_are_percent_encoded URL_new net client id reason :
  (forall c s,
     encodeURIComponent (String c s) = uri_component_encoded c +:+ encodeURIComponent s) /\
  decodeURIComponent (encodeURIComponent id) = id /\
  string_forall (fun c => (is_uri_unreserved c || Ascii.eqb c "%") && negb (is_separator c))
    (encodeURIComponent id) = true /\
  encodeURIComponent "." = "." /\
  encodeURIComponent ".." = ".." /\
  encodeURIComponent "a/b c?d" = "a%2Fb%20c%3Fd" /\
  Forall (fun call : string * RequestInit =>
            buildUrl URL_new client ("/api/routing/" +:+ encodeURIComponent id) None
              = Return call.1 /\
            init_method call.2 = DELETE /\ init_body call.2 = None)
         (fetches (log (Routing_delete URL_new net client id).2)) /\
  Forall (fun call : string * RequestInit =>
            buildUrl URL_new client
              ("/api/approvals/" +:+ encodeURIComponent id +:+ "/approve") None
              = Return call.1 /\
            init_method call.2 = POST /\ init_body call.2 = None)
         (fetches (log (Approvals_approve URL_new net client id).2)) /\
  Forall (fun call : string * RequestInit =>
            buildUrl URL_new client
              ("/api/approvals/" +:+ encodeURIComponent id +:+ "/reject") None
              = Return call.1 /\
            init_method call.2 = POST /\
            init_body call.2 =
              Some (JSON_stringify (JObj [("reason", JStr (default "" reason))])))
         (fetches (log (Approvals_reject URL_new net client id reason).2)) /\
  Forall (fun call : string * RequestInit =>
            buildUrl URL_new client ("/api/integrations?id=" +:+ encodeURIComponent id) None
              = Return call.1 /\
            init_method call.2 = DELETE /\ init_body call.2 = None)
         (fetches (log (Integrations_disconnect URL_new net client id).2)).
Proof.
  split; [apply encodeURIComponent_table|].
  split; [apply decodeURIComponent_encodeURIComponent|].
  split; [apply encodeURIComponent_chars|].
  do 3 (split; [reflexivity|]).
  unfold Routing_delete, Approvals_approve, Approvals_reject, Integrations_disconnect,
    delete, post.
  repeat split.
  all: match goal with
       | |- context [request ?u ?n ?t ?o] =>
           pose proof (request_calls u n t o) as Hcalls;
           destruct (request u n t o) as [raw w]
       end.
  all: cbn [snd] in *; eapply Forall_impl; [exact Hcalls|].
  all: intros [url init] [Hurl ->]; repeat split; exact Hurl.
Qed.

(** X19.  [Billing.balance] reads the payload under its new names and
    under its old ones alike: a payload with [amount] and [transactions]
    and one with the same values under [balance] and [recent_charges]
    give the same result, and where the new names are there the old ones
    are not looked at. *)
Theorem balance_payload_names fields_new fields_old a t :
  own_property "amount" fields_new = Some a -> a <> JNull ->
  own_property "transactions" fields_new = Some t -> t <> JNull ->
  own_property "amount" fields_old = None ->
  own_property "balance" fields_old = Some a ->
  own_property "transactions" fields_old = None ->
  own_property "recent_charges" fields_old = Some t ->
  own_property "currency" fields_new = own_property "currency" fields_old ->
  toBalance (JObj fields_new) = toBalance (JObj fields_old) /\
  forall b, toBalance (JObj fields_new) = Return b ->
    balance b = Some a /\
    currency b = nullish (own_property "currency" fields_new) (JStr "USD").
Proof.
  intros Ha Hna Ht Hnt Ha' Hb' Ht' Hr' Hc.
  assert (Hca : coalesce (Some a) (own_property "balance" fields_new) = Some a)
    by (by destruct a).
  assert (Hct : nullish (coalesce (Some t) (own_property "recent_charges" fields_new)) (JArr [])
                = t) by (by destruct t).
  assert (Hct' : nullish (coalesce None (Some t)) (JArr []) = t) by (by destruct t).
  unfold toBalance, field. cbn [get_field mbind outcome_bind].
  rewrite Ha, Ht, Ha', Hb', Ht', Hr', Hc, Hca, Hct, Hct'.
  split; [reflexivity|].
  intros b Hb. destruct (js_map _ t) as [charges|e]; [|discriminate].
  cbn [mbind outcome_bind mret outcome_ret] in Hb. injection Hb as <-.
  cbn [balance currency]. split; reflexivity.
Qed.

Lemma balance_payload_names_witness :
  toBalance (JObj [("amount", JNum (integer 47)); ("transactions", JArr [])]) =
  toBalance (JObj [("balance", JNum (integer 47)); ("recent_charges", JArr [])]).
Proof.
  refine (proj1 (balance_payload_names
                   [("amount", JNum (integer 47)); ("transactions", JArr [])]
                   [("balance", JNum (integer 47)); ("recent_charges", JArr [])]
                   (JNum (integer 47)) (JArr []) eq_refl _ eq_refl _ eq_refl eq_refl eq_refl eq_refl
                   eq_refl)); discriminate.
Defined.

(** ** The delays *)

(** X20.  The delay before a retry never shrinks from one attempt to the
    next, doubles from 1000 ms while it is under the cap, and is the cap
    of 8000 ms from the fourth attempt on. *)
Theorem backoff_schedule :
  (forall a b, 0 <= a <= b -> backoff a <= backoff b) /\
  (forall a, 0 <= a < 3 -> backoff (a + 1) = 2 * backoff a) /\
  (forall a, 0 <= a -> 1000 <= backoff a <= 8000) /\
  (forall a, 3 <= a -> backoff a = 8000).
Proof.
  split; [|split; [|split]].
  - intros a b Hab. unfold backoff.
    assert (2 ^ a <= 2 ^ b) by (apply Z.pow_le_mono_r; lia). lia.
  - intros a Ha. assert (a = 0 \/ a = 1 \/ a = 2) as [->|[->| ->]] by lia; reflexivity.
  - apply backoff_bounds.
  - intros a Ha. unfold backoff.
    assert (2 ^ 3 <= 2 ^ a) by (apply Z.pow_le_mono_r; lia).
    change (2 ^ 3) with 8 in *. lia.
Qed.
